(** * Zookeeper: the animal store of [server.js]

    A shallow embedding of the four helpers of [src/server.js]
    ([filterByQuery], [findById], [createNewAnimal], [validateAnimal]) and of
    the three [/api/animals] route handlers, over a small model of the
    JavaScript values these functions inspect. *)

From Stdlib Require Import List String Ascii ZArith Lia Bool.
From Stdlib Require Import DecimalString DecimalNat.
Import ListNotations.
Open Scope string_scope.
Open Scope list_scope.
Set Warnings "-register-all".

(** ** JavaScript values *)

Module Js.

(** The values that reach the server: what [express.json()] and the
    [qs] query parser build, plus [undefined] for a missing property.
    An object is its list of own properties in enumeration order.
    Numbers are the integer-valued ones (no fraction, NaN or infinity);
    strings are byte strings, as they are written to the data file. *)
Inductive value : Type :=
| JUndef : value
| JNull : value
| JBool : bool -> value
| JNum : Z -> value
| JStr : string -> value
| JArr : list value -> value
| JObj : list (string * value) -> value.

Definition object : Type := list (string * value).

(** [o.k]: the own property, or [undefined]. *)
Fixpoint get_prop (k : string) (o : object) : value :=
  match o with
  | [] => JUndef
  | (k', v) :: rest => if String.eqb k k' then v else get_prop k rest
  end.

(** [o.k = v]: overwrite in place, or add as the last property. *)
Fixpoint set_prop (k : string) (v : value) (o : object) : object :=
  match o with
  | [] => [(k, v)]
  | (k', v') :: rest =>
      if String.eqb k k' then (k', v) :: rest
      else (k', v') :: set_prop k v rest
  end.

Definition has_prop (k : string) (o : object) : bool :=
  existsb (fun kv => String.eqb k (fst kv)) o.

(** ToBoolean. *)
Definition truthy (v : value) : bool :=
  match v with
  | JUndef | JNull => false
  | JBool b => b
  | JNum n => negb (Z.eqb n 0)
  | JStr s => negb (String.eqb s "")
  | JArr _ | JObj _ => true
  end.

(** The [typeof] operator. *)
Definition typeof (v : value) : string :=
  match v with
  | JUndef => "undefined"
  | JNull => "object"
  | JBool _ => "boolean"
  | JNum _ => "number"
  | JStr _ => "string"
  | JArr _ | JObj _ => "object"
  end.

Definition Array_isArray (v : value) : bool :=
  match v with
  | JArr _ => true
  | _ => false
  end.

(** [a === b].  Primitives compare by value.  Arrays and objects compare
    by identity; at every use below one operand comes from the request
    and the other from the store, two distinct allocations, so the
    comparison of two arrays or two objects is [false]. *)
Definition strict_eq (a b : value) : bool :=
  match a, b with
  | JUndef, JUndef => true
  | JNull, JNull => true
  | JBool x, JBool y => Bool.eqb x y
  | JNum x, JNum y => Z.eqb x y
  | JStr x, JStr y => String.eqb x y
  | _, _ => false
  end.

(** [n.toString()] for an array length, and for an integer number. *)
Definition nat_toString (n : nat) : string :=
  NilEmpty.string_of_uint (Nat.to_uint n).

Definition Z_toString (z : Z) : string :=
  NilZero.string_of_int (Z.to_int z).

Fixpoint join (sep : string) (l : list string) : string :=
  match l with
  | [] => ""
  | [s] => s
  | s :: rest => (s ++ sep ++ join sep rest)%string
  end.

(** ToString, used by [String.prototype.indexOf] on its argument. *)
Fixpoint toString (v : value) : string :=
  match v with
  | JUndef => "undefined"
  | JNull => "null"
  | JBool true => "true"
  | JBool false => "false"
  | JNum n => Z_toString n
  | JStr s => s
  | JArr l =>
      join "," (map (fun x => match x with
                              | JUndef | JNull => ""
                              | _ => toString x
                              end) l)
  | JObj _ => "[object Object]"
  end.

(** [Array.prototype.indexOf]: first index holding a [===] element, or -1. *)
Fixpoint Array_indexOf_from (i : Z) (l : list value) (x : value) : Z :=
  match l with
  | [] => (-1)%Z
  | y :: rest => if strict_eq y x then i else Array_indexOf_from (i + 1) rest x
  end.

Definition Array_indexOf (l : list value) (x : value) : Z :=
  Array_indexOf_from 0 l x.

(** [String.prototype.indexOf]: position of the first occurrence, or -1. *)
Definition String_indexOf (s : string) (x : value) : Z :=
  match String.index 0 (toString x) s with
  | Some n => Z.of_nat n
  | None => (-1)%Z
  end.

(** *** [JSON.stringify(v, null, space)] *)

Local Open Scope string_scope.

Definition dquote : ascii := ascii_of_nat 34.

Definition hex_digit (n : nat) : ascii :=
  match n with
  | 0 => "0" | 1 => "1" | 2 => "2" | 3 => "3" | 4 => "4" | 5 => "5"
  | 6 => "6" | 7 => "7" | 8 => "8" | 9 => "9" | 10 => "a" | 11 => "b"
  | 12 => "c" | 13 => "d" | 14 => "e" | _ => "f"
  end%char.

(** One character of a quoted JSON string: the short escapes, [\u00xx] for
    the other control characters, the character itself otherwise. *)
Definition escape_char (c : ascii) : string :=
  let n := nat_of_ascii c in
  if Nat.eqb n 8 then "\b"
  else if Nat.eqb n 9 then "\t"
  else if Nat.eqb n 10 then "\n"
  else if Nat.eqb n 12 then "\f"
  else if Nat.eqb n 13 then "\r"
  else if Nat.eqb n 34 then String "\" (String dquote "")
  else if Nat.eqb n 92 then "\\"
  else if Nat.ltb n 32 then
    "\u00" ++ String (hex_digit (n / 16)) (String (hex_digit (n mod 16)) "")
  else String c "".

Fixpoint escape (s : string) : string :=
  match s with
  | EmptyString => ""
  | String c rest => escape_char c ++ escape rest
  end.

Definition quote (s : string) : string :=
  String dquote (escape s ++ String dquote "").

Definition newline : string := String (ascii_of_nat 10) "".

Fixpoint spaces (n : nat) : string :=
  match n with
  | 0 => ""
  | S m => String " " (spaces m)
  end.

(** SerializeJSONProperty with the current indentation [indent] and the
    indentation unit [gap]; [None] is [undefined] (the property is then
    left out of an object, and printed as [null] in an array). *)
Fixpoint serialize (gap indent : string) (v : value) : option string :=
  let stepback := indent in
  let indent := indent ++ gap in
  let separator := "," ++ newline ++ indent in
  match v with
  | JUndef => None
  | JNull => Some "null"
  | JBool true => Some "true"
  | JBool false => Some "false"
  | JNum n => Some (Z_toString n)
  | JStr s => Some (quote s)
  | JArr l =>
      let partial :=
        map (fun x => match serialize gap indent x with
                      | Some str => str
                      | None => "null"
                      end) l in
      match partial with
      | [] => Some "[]"
      | _ => Some ("[" ++ newline ++ indent ++ join separator partial
                       ++ newline ++ stepback ++ "]")
      end
  | JObj ps =>
      let partial :=
        flat_map (fun kv => let '(k, x) := kv in
                            match serialize gap indent x with
                            | Some str => [quote k ++ ": " ++ str]
                            | None => []
                            end) ps in
      match partial with
      | [] => Some "{}"
      | _ => Some ("{" ++ newline ++ indent ++ join separator partial
                       ++ newline ++ stepback ++ "}")
      end
  end.

(** [JSON.stringify(v, null, space)] for a numeric [space] of at least 1
    (the gap is at most ten spaces). *)
Definition JSON_stringify (v : value) (space : nat) : option string :=
  serialize (spaces (Nat.min 10 space)) "" v.

End Js.

(** ** Exceptions *)

(** What a call can raise: the two shapes of [TypeError] met in
    [filterByQuery] (a property read on [undefined] or [null], a call of
    something that is not a function) and the failure of a file write. *)
Inductive exn : Type :=
| CannotReadProperty : string -> exn
| NotAFunction : string -> exn
| InvalidArgType : string -> exn
| WriteFailed : exn.

Inductive outcome (A : Type) : Type :=
| Ok : A -> outcome A
| Throw : exn -> outcome A.

Arguments Ok {A} _.
Arguments Throw {A} _.

Definition bind {A B : Type} (m : outcome A) (k : A -> outcome B) : outcome B :=
  match m with
  | Ok a => k a
  | Throw e => Throw e
  end.

Notation "x <- m ;; k" := (bind m (fun x => k))
  (at level 61, m at next level, right associativity).

(** ** The server *)

Module Server.
Import Js.

(** [arr.filter(f)] for a callback that may throw: elements are visited
    from the left, and the first exception aborts the call. *)
Fixpoint filter_throwing {A : Type} (f : A -> outcome bool) (l : list A)
  : outcome (list A) :=
  match l with
  | [] => Ok []
  | x :: rest =>
      keep <- f x ;;
      rest' <- filter_throwing f rest ;;
      Ok (if keep then x :: rest' else rest')
  end.

(** The callback of line 59:
    [animal.personalityTraits.indexOf(trait) !== -1].
    [indexOf] is the array method on an array and the string method on a
    string; reading it off [undefined] or [null] throws, and on any other
    value it is [undefined], which cannot be called. *)
Definition has_trait (trait : value) (animal : object) : outcome bool :=
  match get_prop "personalityTraits" animal with
  | JArr l => Ok (negb (Z.eqb (Array_indexOf l trait) (-1)))
  | JStr s => Ok (negb (Z.eqb (String_indexOf s trait) (-1)))
  | JUndef | JNull => Throw (CannotReadProperty "indexOf")
  | JBool _ | JNum _ | JObj _ => Throw (NotAFunction "indexOf")
  end.

(** The [forEach] of lines 57-61 over the elements of the traits array,
    threading [filteredResults]. *)
Fixpoint forEach_trait (traits : list value) (filteredResults : list object)
  : outcome (list object) :=
  match traits with
  | [] => Ok filteredResults
  | trait :: rest =>
      filteredResults' <- filter_throwing (has_trait trait) filteredResults ;;
      forEach_trait rest filteredResults'
  end.

(** [personalityTraitsArray.forEach(...)]: only an array has the method. *)
Definition forEach_call (personalityTraitsArray : value)
    (filteredResults : list object) : outcome (list object) :=
  match personalityTraitsArray with
  | JArr traits => forEach_trait traits filteredResults
  | JUndef | JNull => Throw (CannotReadProperty "forEach")
  | _ => Throw (NotAFunction "forEach")
  end.

Definition filterByQuery (query : object) (animalsArray : list object)
  : outcome (list object) :=
  let filteredResults := animalsArray in
  filteredResults <-
    (if truthy (get_prop "personalityTraits" query) then
       let personalityTraitsArray :=
         if String.eqb (typeof (get_prop "personalityTraits" query)) "string"
         then JArr [get_prop "personalityTraits" query]
         else get_prop "personalityTraits" query in
       forEach_call personalityTraitsArray filteredResults
     else Ok filteredResults) ;;
  let filteredResults :=
    if truthy (get_prop "diet" query) then
      filter (fun animal => strict_eq (get_prop "diet" animal)
                                      (get_prop "diet" query))
             filteredResults
    else filteredResults in
  let filteredResults :=
    if truthy (get_prop "species" query) then
      filter (fun animal => strict_eq (get_prop "species" animal)
                                      (get_prop "species" query))
             filteredResults
    else filteredResults in
  let filteredResults :=
    if truthy (get_prop "name" query) then
      filter (fun animal => strict_eq (get_prop "name" animal)
                                      (get_prop "name" query))
             filteredResults
    else filteredResults in
  Ok filteredResults.

(** [animalsArray.filter(animal => animal.id === id)[0]]; [None] is the
    [undefined] read at index 0 of an empty array. *)
Definition findById (id : value) (animalsArray : list object) : option object :=
  nth_error (filter (fun animal => strict_eq (get_prop "id" animal) id)
                    animalsArray) 0.

(** The data file [data/animals.json]: its content, whether a write to it
    goes through, and how many writes have gone through so far.  A write
    that fails leaves the file as it was. *)
Record file_system : Type := mkFs {
  animals_json : string;
  writable : bool;
  writes : nat
}.

Definition writeFileSync (data : string) (fs : file_system)
  : outcome unit * file_system :=
  if writable fs then (Ok tt, mkFs data (writable fs) (S (writes fs)))
  else (Throw WriteFailed, fs).

(** [createNewAnimal(body, animalsArray)]: [push] mutates the array it is
    given, so the array after the call is part of the result, also when the
    write throws. *)
Definition createNewAnimal (body : object) (animalsArray : list object)
    (fs : file_system) : outcome object * list object * file_system :=
  let animal := body in
  let animalsArray := animalsArray ++ [animal] in
  match JSON_stringify (JObj [("animals", JArr (map JObj animalsArray))]) 2 with
  | Some data =>
      match writeFileSync data fs with
      | (Ok _, fs') => (Ok animal, animalsArray, fs')
      | (Throw e, fs') => (Throw e, animalsArray, fs')
      end
  | None => (Throw (InvalidArgType "data"), animalsArray, fs)
  end.

Definition validateAnimal (animal : object) : bool :=
  if negb (truthy (get_prop "name" animal))
     || negb (String.eqb (typeof (get_prop "name" animal)) "string")
  then false
  else if negb (truthy (get_prop "species" animal))
          || negb (String.eqb (typeof (get_prop "species" animal)) "string")
  then false
  else if negb (truthy (get_prop "diet" animal))
          || negb (String.eqb (typeof (get_prop "diet" animal)) "string")
  then false
  else if negb (truthy (get_prop "personalityTraits" animal))
          || negb (Array_isArray (get_prop "personalityTraits" animal))
  then false
  else true.

(** *** The route handlers *)

(** The module-level [animals] array and the data file. *)
Record world : Type := mkWorld {
  animals : list object;
  fs : file_system
}.

(** What a handler answers: [res.json(v)], [res.send(404)],
    [res.status(400).send(message)], or an exception that leaves the
    handler. *)
Inductive response : Type :=
| res_json : value -> response
| res_send : nat -> response
| res_status_send : nat -> string -> response
| uncaught : exn -> response.

(** [app.get('/api/animals')]; [req.query] is always an object. *)
Definition get_api_animals (query : object) (w : world) : response * world :=
  let results := animals w in
  match (if truthy (JObj query) then filterByQuery query results
         else Ok results) with
  | Ok results => (res_json (JArr (map JObj results)), w)
  | Throw e => (uncaught e, w)
  end.

(** [app.get('/api/animals/:id')]; a route parameter is a string. *)
Definition get_api_animals_id (id : string) (w : world) : response * world :=
  match findById (JStr id) (animals w) with
  | Some result =>
      if truthy (JObj result) then (res_json (JObj result), w)
      else (res_send 404, w)
  | None => (res_send 404, w)
  end.

(** [app.post('/api/animals')]. *)
Definition post_api_animals (body : object) (w : world) : response * world :=
  let body := set_prop "id" (JStr (nat_toString (List.length (animals w)))) body in
  if negb (validateAnimal body) then
    (res_status_send 400 "The animal is not properly formatted.", w)
  else
    match createNewAnimal body (animals w) (fs w) with
    | (Ok animal, animals', fs') => (res_json (JObj animal), mkWorld animals' fs')
    | (Throw e, animals', fs') => (uncaught e, mkWorld animals' fs')
    end.

Inductive request : Type :=
| GET_animals : object -> request
| GET_animal : string -> request
| POST_animal : object -> request.

Definition handle (r : request) (w : world) : response * world :=
  match r with
  | GET_animals query => get_api_animals query w
  | GET_animal id => get_api_animals_id id w
  | POST_animal body => post_api_animals body w
  end.

Fixpoint run (rs : list request) (w : world) : world :=
  match rs with
  | [] => w
  | r :: rest => run rest (snd (handle r w))
  end.

End Server.

(** ** What the specification says, in its own terms *)

Module Spec.
Import Js.

(** A query value is one string or several. *)
Inductive qvalue : Type :=
| QStr : string -> qvalue
| QSeq : list string -> qvalue.

Definition query : Type := list (string * qvalue).

Fixpoint lookup (k : string) (q : query) : option qvalue :=
  match q with
  | [] => None
  | (k', v) :: rest => if String.eqb k k' then Some v else lookup k rest
  end.

(** The query object the parser hands to the server. *)
Definition js_of_qvalue (v : qvalue) : value :=
  match v with
  | QStr s => JStr s
  | QSeq l => JArr (map JStr l)
  end.

Definition js_of_query (q : query) : object :=
  map (fun kv => (fst kv, js_of_qvalue (snd kv))) q.

(** A single string is normalized to a one-element sequence. *)
Definition normalize (v : qvalue) : list string :=
  match v with
  | QStr s => [s]
  | QSeq l => l
  end.

(** The record's [personalityTraits] sequence. *)
Definition traits_of (animal : object) : list value :=
  match get_prop "personalityTraits" animal with
  | JArr l => l
  | _ => []
  end.

Definition trait_present (t : string) (animal : object) : Prop :=
  In (JStr t) (traits_of animal).

(** Exact string equality of the record's field with the query value; a
    sequence is not a string, so it equals no field. *)
Definition field_equals (k : string) (v : qvalue) (animal : object) : Prop :=
  match v with
  | QStr s => get_prop k animal = JStr s
  | QSeq _ => False
  end.

(** The conjunction of the criteria of [q] that are [active]. *)
Definition satisfies (active : qvalue -> Prop) (q : query) (animal : object)
  : Prop :=
  (forall v, lookup "personalityTraits" q = Some v -> active v ->
             forall t, In t (normalize v) -> trait_present t animal)
  /\ (forall v, lookup "diet" q = Some v -> active v ->
                field_equals "diet" v animal)
  /\ (forall v, lookup "species" q = Some v -> active v ->
                field_equals "species" v animal)
  /\ (forall v, lookup "name" q = Some v -> active v ->
                field_equals "name" v animal).

(** Every supplied criterion counts. *)
Definition supplied (v : qvalue) : Prop := True.

(** Only a criterion whose value is not the empty string counts. *)
Definition nonempty (v : qvalue) : Prop := v <> QStr "".

(** [r] is [l] with some elements left out, order kept. *)
Inductive Subseq {A : Type} : list A -> list A -> Prop :=
| Subseq_nil : Subseq [] []
| Subseq_keep : forall x r l, Subseq r l -> Subseq (x :: r) (x :: l)
| Subseq_skip : forall x r l, Subseq r l -> Subseq r (x :: l).

(** The data model's invariant on the store: every record has a
    [personalityTraits] sequence. *)
Definition store_wf (store : list object) : Prop :=
  forall animal, In animal store ->
                 exists l, get_prop "personalityTraits" animal = JArr l.

(** The result of the filter is the sub-sequence of the store made of
    exactly the records that satisfy the active criteria. *)
Definition filter_spec (active : qvalue -> Prop) (q : query)
    (store : list object) : Prop :=
  exists (p : object -> bool) (r : list object),
    Server.filterByQuery (js_of_query q) store = Ok r
    /\ (forall animal, p animal = true <-> satisfies active q animal)
    /\ r = filter p store
    /\ Subseq r store
    /\ (NoDup store -> NoDup r).

(** The requested traits of a query whose [personalityTraits] is a string
    or a sequence of strings. *)
Inductive requested_traits : value -> list string -> Prop :=
| requested_one : forall s, requested_traits (JStr s) [s]
| requested_many : forall l, requested_traits (JArr (map JStr l)) l.

(** The other three filters, as [filterByQuery] applies them. *)
Definition scalar_b (k : string) (query animal : object) : bool :=
  if truthy (get_prop k query)
  then strict_eq (get_prop k animal) (get_prop k query)
  else true.

Definition scalars_b (query animal : object) : bool :=
  scalar_b "diet" query animal && scalar_b "species" query animal
  && scalar_b "name" query animal.

(** The filter keeps a record exactly when every requested trait is
    present in it (and it passes the other filters of the query). *)
Definition keeps_exactly (query : object) (store : list object)
    (traits : list string) : Prop :=
  exists r, Server.filterByQuery query store = Ok r
    /\ forall animal, In animal r <->
         (In animal store
          /\ (forall t, In t traits -> trait_present t animal)
          /\ scalars_b query animal = true).

(** The query that asks for the one trait [t]. *)
Definition single_trait (query : object) (t : string) : object :=
  set_prop "personalityTraits" (JArr [JStr t]) query.

(** The result is the intersection of the per-trait results. *)
Definition is_intersection (query : object) (store : list object)
    (traits : list string) : Prop :=
  exists r, Server.filterByQuery query store = Ok r
    /\ forall animal, In animal r <->
         (In animal store /\ scalars_b query animal = true
          /\ forall t, In t traits ->
               exists r_t, Server.filterByQuery (single_trait query t) store
                           = Ok r_t /\ In animal r_t).

(** Ids are unique within the collection. *)
Definition unique_ids (store : list object) : Prop :=
  NoDup (map (get_prop "id") store).

(** No record of the store carries the id the next insert will assign. *)
Definition next_id_fresh (store : list object) : Prop :=
  forall animal, In animal store ->
    get_prop "id" animal <> JStr (nat_toString (List.length store)).

(** Every record carries its own index as id. *)
Definition indexed_ids (store : list object) : Prop :=
  forall i animal, nth_error store i = Some animal ->
    get_prop "id" animal = JStr (nat_toString i).

(** The data file holds the serialization of the in-memory sequence. *)
Definition envelope (store : list object) : value :=
  JObj [("animals", JArr (map JObj store))].

Definition in_sync (w : Server.world) : Prop :=
  JSON_stringify (envelope (Server.animals w)) 2
  = Some (Server.animals_json (Server.fs w)).

(** A string that is present and not empty. *)
Definition nonempty_string (v : value) : Prop :=
  exists s, v = JStr s /\ s <> "".

Definition is_string (v : value) : Prop := exists s, v = JStr s.

Definition is_array (v : value) : Prop := exists l, v = JArr l.

(** The four query keys the filter looks at. *)
Definition recognized (k : string) : Prop :=
  k = "personalityTraits" \/ k = "diet" \/ k = "species" \/ k = "name".

End Spec.

(** ** Decision procedures used in the proofs *)

Module Dec.
Import Js Spec.

(** [animal.personalityTraits.indexOf(trait) !== -1] on a record that has
    a traits sequence. *)
Definition has_trait_b (trait : value) (animal : object) : bool :=
  negb (Z.eqb (Array_indexOf (traits_of animal) trait) (-1)).

Definition has_traits_b (traits : list value) (animal : object) : bool :=
  forallb (fun t => has_trait_b t animal) traits.

(** The traits array [filterByQuery] loops over, when it has one. *)
Definition effective_traits (v : value) : option (list value) :=
  if truthy v then
    match v with
    | JStr _ => Some [v]
    | JArr l => Some l
    | _ => None
    end
  else Some [].

Definition matches_b (ts : list value) (query animal : object) : bool :=
  has_traits_b ts animal && scalars_b query animal.

(** The traits a typed query really asks for: an empty string asks for
    nothing. *)
Definition active_traits (q : query) : list string :=
  match lookup "personalityTraits" q with
  | Some (QStr s) => if String.eqb s "" then [] else [s]
  | Some (QSeq l) => l
  | None => []
  end.

Definition decide_query (q : query) (animal : object) : bool :=
  matches_b (map JStr (active_traits q)) (js_of_query q) animal.

(** The candidate once the insert route has set its id. *)
Definition candidate (body : object) (w : Server.world) : object :=
  set_prop "id" (JStr (nat_toString (List.length (Server.animals w)))) body.

End Dec.

(** ** Sample data *)

Module Sample.
Import Js Server Spec.

Definition rex : object :=
  [("id", JStr "0"); ("name", JStr "Rex"); ("species", JStr "Dog");
   ("diet", JStr "omnivore"); ("personalityTraits", JArr [JStr "loyal"])].

Definition milo : object :=
  [("name", JStr "Milo"); ("species", JStr "Cat");
   ("diet", JStr "carnivore");
   ("personalityTraits", JArr [JStr "aloof"; JStr "independent"])].

Definition milo1 : object :=
  [("name", JStr "Milo"); ("species", JStr "Cat");
   ("diet", JStr "carnivore");
   ("personalityTraits", JArr [JStr "aloof"; JStr "independent"]);
   ("id", JStr "1")].

(** A record stored at index 0 under the id ["1"]. *)
Definition rex1 : object :=
  [("id", JStr "1"); ("name", JStr "Rex"); ("species", JStr "Dog");
   ("diet", JStr "omnivore"); ("personalityTraits", JArr [JStr "loyal"])].

(** A candidate with an empty name. *)
Definition nameless : object :=
  [("name", JStr ""); ("species", JStr "Lion"); ("diet", JStr "carnivore");
   ("personalityTraits", JArr [JStr "aloof"])].

(** The validator's example of the specification, without a name. *)
Definition lion : object :=
  [("species", JStr "Lion"); ("diet", JStr "carnivore");
   ("personalityTraits", JArr [JStr "aloof"])].

Definition disk0 : file_system := mkFs "" true 0.

Definition w0 : world := mkWorld [rex] disk0.

Definition w1 : world := mkWorld [rex1] disk0.

End Sample.

(** ** [path.join] and the page routes *)

Module Path.

Local Open Scope string_scope.

Definition slash : ascii := ascii_of_nat 47.

(** The segments of a path between its separators. *)
Fixpoint split (s : string) : list string :=
  match s with
  | EmptyString => [""]
  | String c rest =>
      if Ascii.eqb c slash then "" :: split rest
      else match split rest with
           | seg :: segs => String c seg :: segs
           | [] => [String c ""]
           end
  end.

(** One step of [normalizeString], on the stack of the segments kept so
    far (last one first): an empty segment and [.] are dropped, [..] drops
    the segment before it, or stays when there is none to drop and the
    path is relative. *)
Definition step (allowAboveRoot : bool) (res : list string) (seg : string)
  : list string :=
  if String.eqb seg "" || String.eqb seg "." then res
  else if String.eqb seg ".." then
    match res with
    | top :: below =>
        if String.eqb top ".."
        then (if allowAboveRoot then ".." :: res else res)
        else below
    | [] => if allowAboveRoot then [".."] else []
    end
  else seg :: res.

Definition normalizeString (path : string) (allowAboveRoot : bool) : string :=
  Js.join "/" (rev (fold_left (step allowAboveRoot) (split path) [])).

Definition starts_with_slash (s : string) : bool :=
  match s with
  | String c _ => Ascii.eqb c slash
  | EmptyString => false
  end.

Fixpoint ends_with_slash (s : string) : bool :=
  match s with
  | EmptyString => false
  | String c EmptyString => Ascii.eqb c slash
  | String _ rest => ends_with_slash rest
  end.

(** [path.posix.normalize]. *)
Definition normalize (path : string) : string :=
  if String.eqb path "" then "."
  else
    let isAbsolute := starts_with_slash path in
    let trailingSeparator := ends_with_slash path in
    let path := normalizeString path (negb isAbsolute) in
    if String.eqb path "" then
      if isAbsolute then "/" else if trailingSeparator then "./" else "."
    else
      let path := if trailingSeparator then path ++ "/" else path in
      if isAbsolute then "/" ++ path else path.

(** [path.join(a, b)] on a POSIX system: the non-empty arguments joined by
    a separator, then normalized. *)
Definition join (a b : string) : string :=
  if String.eqb a "" then
    if String.eqb b "" then "." else normalize b
  else if String.eqb b "" then normalize a
  else normalize (a ++ "/" ++ b).

(** An absolute directory, as [__dirname] gives it, from its segments. *)
Fixpoint dir (segs : list string) : string :=
  match segs with
  | [] => ""
  | seg :: rest => "/" ++ seg ++ dir rest
  end.

Definition dirname (segs : list string) : string :=
  match segs with
  | [] => "/"
  | _ => dir segs
  end.

Fixpoint no_slash (s : string) : bool :=
  match s with
  | EmptyString => true
  | String c rest => negb (Ascii.eqb c slash) && no_slash rest
  end.

(** A directory name: not empty, not [.] or [..], no separator in it. *)
Definition plain (seg : string) : bool :=
  no_slash seg && negb (String.eqb seg "") && negb (String.eqb seg ".")
  && negb (String.eqb seg "..").

End Path.

Module Html.

Local Open Scope string_scope.

Inductive page : Type :=
| Index : page
| Animals : page
| Zookeepers : page.

(** The routes ['/'], ['/animals'] and ['/zookeepers'] of [server.js]:
    the file each one hands to [res.sendFile]. *)
Definition server_sendFile (__dirname : string) (p : page) : string :=
  match p with
  | Index => Path.join __dirname "./public/index.html"
  | Animals => Path.join __dirname "./public/animals.html"
  | Zookeepers => Path.join __dirname "./public/zookeepers.html"
  end.

(** The same three routes in [routes/htmlRoutes/index.js]. *)
Definition router_sendFile (__dirname : string) (p : page) : string :=
  match p with
  | Index => Path.join __dirname "../../public/index.html"
  | Animals => Path.join __dirname "../../public/animals.html"
  | Zookeepers => Path.join __dirname "../../public/zookeepers.html"
  end.

(** The catch-all route [app.get('*')] of [server.js]. *)
Definition wildcard_sendFile (__dirname : string) : string :=
  Path.join __dirname "./public/index.html".

Definition file_name (p : page) : string :=
  match p with
  | Index => "index.html"
  | Animals => "animals.html"
  | Zookeepers => "zookeepers.html"
  end.

End Html.

(** ** The filter as one total test, and counting inserts *)

Module Total.
Import Js Spec Dec.

(** The callback of the traits loop, with an exception read as "no". *)
Definition would_keep (trait : value) (animal : object) : bool :=
  match Server.has_trait trait animal with
  | Ok b => b
  | Throw _ => false
  end.

Definition asked_traits (query : object) : list value :=
  match effective_traits (get_prop "personalityTraits" query) with
  | Some ts => ts
  | None => []
  end.

Definition keep (query animal : object) : bool :=
  forallb (fun t => would_keep t animal) (asked_traits query)
  && scalars_b query animal.

(** A traits value that can be looped over: falsy, a string, or an array. *)
Definition iterable (v : value) : Prop :=
  effective_traits v <> None.

(** A record whose [personalityTraits] has no [indexOf] to call. *)
Definition no_indexOf (animal : object) : Prop :=
  match get_prop "personalityTraits" animal with
  | JArr _ | JStr _ => False
  | _ => True
  end.

Definition indexOf_error (e : exn) : Prop :=
  e = CannotReadProperty "indexOf" \/ e = NotAFunction "indexOf".

(** The number of insert requests of a run. *)
Fixpoint inserts (rs : list Server.request) : nat :=
  match rs with
  | [] => 0
  | Server.POST_animal _ :: rest => S (inserts rest)
  | _ :: rest => inserts rest
  end.

(** [t] occurs in [s]. *)
Definition occurs_in (t s : string) : Prop :=
  exists n, String.substring n (String.length t) s = t.

End Total.

(** ** Facts about the JavaScript model *)

Module JsFacts.
Import Js.

Lemma get_set_same (k : string) (v : value) (o : object) :
  get_prop k (set_prop k v o) = v.
Proof.
  induction o as [|[k' v'] rest IH]; simpl.
  - now rewrite String.eqb_refl.
  - destruct (String.eqb k k') eqn:E; simpl; rewrite E; auto.
Qed.

Lemma get_set_other (k k' : string) (v : value) (o : object) :
  k <> k' -> get_prop k (set_prop k' v o) = get_prop k o.
Proof.
  intros Hne. induction o as [|[k0 v0] rest IH]; simpl.
  - apply String.eqb_neq in Hne. now rewrite Hne.
  - destruct (String.eqb k' k0) eqn:E; simpl.
    + apply String.eqb_eq in E. subst k0.
      apply String.eqb_neq in Hne. now rewrite Hne.
    + now rewrite IH.
Qed.

Lemma get_absent (k : string) (o : object) :
  has_prop k o = false -> get_prop k o = JUndef.
Proof.
  induction o as [|[k' v'] rest IH]; simpl; auto.
  destruct (String.eqb k k'); simpl; [discriminate | auto].
Qed.

Lemma strict_eq_string (v : value) (s : string) :
  strict_eq v (JStr s) = true <-> v = JStr s.
Proof.
  destruct v; simpl; split; intros H; try discriminate.
  - apply String.eqb_eq in H. now subst.
  - injection H as ->. apply String.eqb_refl.
Qed.

Lemma indexOf_from_ge (l : list value) (x : value) (i : Z) :
  (0 <= i)%Z ->
  Array_indexOf_from i l x = (-1)%Z \/ (i <= Array_indexOf_from i l x)%Z.
Proof.
  revert i. induction l as [|y rest IH]; intros i Hi; simpl; auto.
  destruct (strict_eq y x); [right; lia|].
  destruct (IH (i + 1)%Z ltac:(lia)); [auto | right; lia].
Qed.

Lemma indexOf_from_found (l : list value) (x : value) (i : Z) :
  (0 <= i)%Z ->
  negb (Z.eqb (Array_indexOf_from i l x) (-1))
  = existsb (fun y => strict_eq y x) l.
Proof.
  revert i. induction l as [|y rest IH]; intros i Hi; simpl; auto.
  destruct (strict_eq y x); simpl.
  - destruct (Z.eqb_spec i (-1)); [lia | reflexivity].
  - apply IH. lia.
Qed.

(** [indexOf] finds a string exactly when the array holds it. *)
Lemma indexOf_string (l : list value) (s : string) :
  negb (Z.eqb (Array_indexOf l (JStr s)) (-1)) = true <-> In (JStr s) l.
Proof.
  unfold Array_indexOf. rewrite indexOf_from_found by lia.
  rewrite existsb_exists. split.
  - intros [y [Hin Heq]]. apply strict_eq_string in Heq. now subst.
  - intros Hin. exists (JStr s). split; auto. now apply strict_eq_string.
Qed.

Lemma truthy_string (s : string) :
  truthy (JStr s) = true <-> s <> "".
Proof.
  simpl. rewrite negb_true_iff. apply String.eqb_neq.
Qed.

(** The decimal string of a length reads back as that length. *)
Lemma nat_toString_reads_back (n : nat) :
  option_map Nat.of_uint (NilEmpty.uint_of_string (nat_toString n)) = Some n.
Proof.
  unfold nat_toString. rewrite NilEmpty.usu. simpl.
  now rewrite Unsigned.of_to.
Qed.

Lemma nat_toString_inj (n m : nat) :
  nat_toString n = nat_toString m -> n = m.
Proof.
  intros H. pose proof (nat_toString_reads_back n) as Hn.
  rewrite H, nat_toString_reads_back in Hn. now injection Hn.
Qed.

(** The envelope of a store always serializes. *)
Lemma serialize_defined (gap indent : string) (v : value) :
  v <> JUndef -> exists s, serialize gap indent v = Some s.
Proof.
  destruct v as [| |[|]| | |l|ps]; intros H; simpl; try (eexists; reflexivity).
  - contradiction.
  - destruct (map _ l); eexists; reflexivity.
  - destruct (flat_map _ ps); eexists; reflexivity.
Qed.

End JsFacts.

(** ** Facts about [filterByQuery] *)

Module FilterFacts.
Import Js Server Spec Dec JsFacts.

Lemma filter_throwing_total {A : Type} (f : A -> outcome bool)
    (g : A -> bool) (l : list A) :
  (forall x, In x l -> f x = Ok (g x)) ->
  filter_throwing f l = Ok (filter g l).
Proof.
  induction l as [|x rest IH]; intros H; simpl; auto.
  rewrite (H x (or_introl eq_refl)). simpl.
  rewrite IH by (intros y Hy; apply H; now right). simpl.
  now destruct (g x).
Qed.

Lemma filter_twice {A : Type} (f g : A -> bool) (l : list A) :
  filter g (filter f l) = filter (fun x => f x && g x) l.
Proof.
  induction l as [|x rest IH]; simpl; auto.
  destruct (f x); simpl; [destruct (g x)|]; now rewrite IH.
Qed.

Lemma filter_Subseq {A : Type} (p : A -> bool) (l : list A) :
  Subseq (filter p l) l.
Proof.
  induction l as [|x rest IH]; simpl; [constructor|].
  destruct (p x); now constructor.
Qed.

Lemma Subseq_In {A : Type} (r l : list A) (x : A) :
  Subseq r l -> In x r -> In x l.
Proof.
  induction 1; simpl; intuition.
Qed.

Lemma has_trait_array (trait : value) (animal : object) (l : list value) :
  get_prop "personalityTraits" animal = JArr l ->
  has_trait trait animal = Ok (has_trait_b trait animal).
Proof.
  intros H. unfold has_trait, has_trait_b, traits_of. now rewrite H.
Qed.

Lemma store_wf_filter (p : object -> bool) (store : list object) :
  store_wf store -> store_wf (filter p store).
Proof.
  intros H a Ha. apply filter_In in Ha. apply H, Ha.
Qed.

Lemma store_wf_snoc (store : list object) (animal : object) :
  store_wf store -> is_array (get_prop "personalityTraits" animal) ->
  store_wf (store ++ [animal]).
Proof.
  intros H Ha b Hb. apply in_app_iff in Hb. destruct Hb as [Hb|[<-|[]]]; auto.
Qed.

Lemma filter_has_trait (trait : value) (store : list object) :
  store_wf store ->
  filter_throwing (has_trait trait) store = Ok (filter (has_trait_b trait) store).
Proof.
  intros H. apply filter_throwing_total. intros a Ha.
  destruct (H a Ha) as [l Hl]. eapply has_trait_array; eauto.
Qed.

(** On a store that keeps the invariant the loop over the traits is one
    filter by the conjunction of the per-trait tests. *)
Lemma forEach_trait_wf (traits : list value) (store : list object) :
  store_wf store ->
  forEach_trait traits store = Ok (filter (has_traits_b traits) store).
Proof.
  revert store. induction traits as [|t rest IH]; intros store H; simpl.
  - f_equal. induction store as [|a s IHs]; simpl; auto. f_equal. apply IHs.
    intros b Hb. apply H. now right.
  - rewrite filter_has_trait by assumption. simpl.
    rewrite IH by now apply store_wf_filter.
    now rewrite filter_twice.
Qed.

(** The three scalar filters are one filter. *)
Lemma scalar_filters (query : object) (l : list object) :
  (let r := if truthy (get_prop "diet" query)
            then filter (fun animal => strict_eq (get_prop "diet" animal)
                                                 (get_prop "diet" query)) l
            else l in
   let r := if truthy (get_prop "species" query)
            then filter (fun animal => strict_eq (get_prop "species" animal)
                                                 (get_prop "species" query)) r
            else r in
   let r := if truthy (get_prop "name" query)
            then filter (fun animal => strict_eq (get_prop "name" animal)
                                                 (get_prop "name" query)) r
            else r in
   r) = filter (scalars_b query) l.
Proof.
  assert (Hid : forall (p : object -> bool) (m : list object),
             (forall a, p a = true) -> filter p m = m).
  { intros p m Hp. induction m as [|a m IHm]; simpl; auto.
    rewrite Hp. now f_equal. }
  cbv zeta. unfold scalars_b, scalar_b.
  destruct (truthy (get_prop "diet" query)),
           (truthy (get_prop "species" query)),
           (truthy (get_prop "name" query));
    rewrite ?filter_twice; try reflexivity;
    try (apply filter_ext; intros a;
         now rewrite ?andb_true_r, ?andb_true_l, ?andb_assoc).
  symmetry. now apply Hid.
Qed.

(** Without a truthy [personalityTraits] no record's traits are read, and
    the result is the scalar filter of the store, whatever the store. *)
Lemma filterByQuery_no_traits (query : object) (store : list object) :
  truthy (get_prop "personalityTraits" query) = false ->
  filterByQuery query store = Ok (filter (scalars_b query) store).
Proof.
  intros H. unfold filterByQuery. rewrite H. simpl.
  f_equal. apply scalar_filters.
Qed.

Lemma traits_stage (query : object) (store : list object) (ts : list value) :
  truthy (get_prop "personalityTraits" query) = true ->
  effective_traits (get_prop "personalityTraits" query) = Some ts ->
  forEach_call
    (if String.eqb (typeof (get_prop "personalityTraits" query)) "string"
     then JArr [get_prop "personalityTraits" query]
     else get_prop "personalityTraits" query) store
  = forEach_trait ts store.
Proof.
  unfold effective_traits. intros Ht. rewrite Ht.
  destruct (get_prop "personalityTraits" query); simpl; intros E;
    try discriminate; now injection E as <-.
Qed.

(** On a store that keeps the invariant, and for a traits value that is
    falsy, a string or an array, the whole function is one filter. *)
Lemma filterByQuery_wf (query : object) (store : list object)
    (ts : list value) :
  store_wf store ->
  effective_traits (get_prop "personalityTraits" query) = Some ts ->
  filterByQuery query store = Ok (filter (matches_b ts query) store).
Proof.
  intros Hwf Hts.
  destruct (truthy (get_prop "personalityTraits" query)) eqn:Ht.
  - unfold filterByQuery. rewrite Ht.
    rewrite (traits_stage _ _ _ Ht Hts), forEach_trait_wf by assumption.
    simpl. f_equal. rewrite scalar_filters. apply filter_twice.
  - rewrite filterByQuery_no_traits by assumption.
    unfold effective_traits in Hts. rewrite Ht in Hts. injection Hts as <-.
    reflexivity.
Qed.

End FilterFacts.

(** ** Filtering by personality traits *)

Module Traits.
Import Js Server Spec Dec JsFacts FilterFacts.

Lemma has_traits_spec (traits : list string) (animal : object) :
  has_traits_b (map JStr traits) animal = true
  <-> forall t, In t traits -> trait_present t animal.
Proof.
  unfold has_traits_b, has_trait_b, trait_present.
  rewrite forallb_forall. split.
  - intros H t Ht. apply indexOf_string, H, in_map, Ht.
  - intros H v Hv. apply in_map_iff in Hv. destruct Hv as [t [<- Ht]].
    apply indexOf_string, H, Ht.
Qed.

Lemma requested_effective (v : value) (traits : list string) :
  requested_traits v traits -> v <> JStr "" ->
  effective_traits v = Some (map JStr traits).
Proof.
  intros [s|l] Hne; unfold effective_traits.
  - assert (Hs : truthy (JStr s) = true).
    { apply truthy_string. intros ->. now apply Hne. }
    now rewrite Hs.
  - reflexivity.
Qed.

Lemma scalars_single_trait (query animal : object) (t : string) :
  scalars_b (single_trait query t) animal = scalars_b query animal.
Proof.
  unfold scalars_b, scalar_b, single_trait.
  now rewrite !get_set_other by discriminate.
Qed.

Lemma single_trait_result (query : object) (store : list object) (t : string) :
  store_wf store ->
  filterByQuery (single_trait query t) store
  = Ok (filter (fun a => has_traits_b [JStr t] a && scalars_b query a) store).
Proof.
  intros Hwf. rewrite (filterByQuery_wf _ _ [JStr t] Hwf).
  - f_equal. apply filter_ext. intros a. unfold matches_b.
    now rewrite scalars_single_trait.
  - unfold single_trait. now rewrite get_set_same.
Qed.

Lemma matches_spec (query : object) (traits : list string) (animal : object) :
  matches_b (map JStr traits) query animal = true
  <-> (forall t, In t traits -> trait_present t animal)
      /\ scalars_b query animal = true.
Proof.
  unfold matches_b. now rewrite andb_true_iff, has_traits_spec.
Qed.

End Traits.

Module TraitsQuery.
Import Js Server Spec Dec JsFacts FilterFacts Traits Sample.

(** C1, as stated, fails on the empty string: [filterByQuery] treats
    [personalityTraits: ""] as no criterion at all, so it keeps Rex, whose
    traits do not hold the requested trait [""]. *)
Lemma empty_trait_is_ignored :
  store_wf [rex]
  /\ requested_traits (get_prop "personalityTraits"
                                [("personalityTraits", JStr "")]) [""]
  /\ filterByQuery [("personalityTraits", JStr "")] [rex] = Ok [rex]
  /\ ~ trait_present "" rex
  /\ ~ keeps_exactly [("personalityTraits", JStr "")] [rex] [""].
Proof.
  assert (Hno : ~ trait_present "" rex).
  { unfold trait_present. simpl. intros [H|[]]. discriminate. }
  repeat split; auto.
  - intros a [<-|[]]. eexists. reflexivity.
  - exact (requested_one "").
  - intros [r [Hr Hiff]]. simpl in Hr. injection Hr as <-.
    apply Hno. apply (Hiff rex); simpl; auto.
Qed.

(** C1 (amended): for every query whose [personalityTraits] value is a
    non-empty string or a sequence of strings, over a store whose records
    all have a traits sequence, [filterByQuery] keeps a record exactly when
    every requested trait is present in the record's traits (and the record
    passes the other filters of the query); a single string gives the same
    result as the one-element sequence holding it; and the result is the
    intersection of the results of the single-trait queries. *)
Theorem filterByQuery_traits (query : object) (store : list object)
    (traits : list string) :
  store_wf store ->
  requested_traits (get_prop "personalityTraits" query) traits ->
  get_prop "personalityTraits" query <> JStr "" ->
  keeps_exactly query store traits
  /\ is_intersection query store traits
  /\ (forall s, get_prop "personalityTraits" query = JStr s ->
                filterByQuery query store
                = filterByQuery (single_trait query s) store).
Proof.
  intros Hwf Hreq Hne.
  pose proof (filterByQuery_wf query store _ Hwf
                (requested_effective _ _ Hreq Hne)) as Hres.
  split; [|split].
  - eexists. split; [exact Hres|]. intros a.
    rewrite filter_In, matches_spec. tauto.
  - eexists. split; [exact Hres|]. intros a.
    rewrite filter_In, matches_spec. split.
    + intros [Hin [Hall Hsc]]. repeat split; auto.
      intros t Ht. eexists. split; [now apply single_trait_result|].
      apply filter_In. split; auto. apply andb_true_iff. split; auto.
      apply (has_traits_spec [t]). intros t' [<-|[]]. now apply Hall.
    + intros [Hin [Hsc Hall]]. repeat split; auto.
      intros t Ht. destruct (Hall t Ht) as [r_t [Hrt Hin_t]].
      rewrite single_trait_result in Hrt by assumption.
      injection Hrt as <-. apply filter_In in Hin_t.
      destruct Hin_t as [_ Hb]. apply andb_true_iff in Hb.
      apply (has_traits_spec [t]); [apply Hb | now left].
  - intros s Hs. rewrite Hres, single_trait_result by assumption.
    rewrite Hs in Hreq. inversion Hreq; subst. reflexivity.
Qed.

(** The theorem at the query [personalityTraits=aloof&personalityTraits=independent]
    over the store of Rex and Milo. *)
Lemma filterByQuery_traits_witness :
  keeps_exactly [("personalityTraits", JArr [JStr "aloof"; JStr "independent"])]
                [rex; milo1] ["aloof"; "independent"]
  /\ is_intersection
       [("personalityTraits", JArr [JStr "aloof"; JStr "independent"])]
       [rex; milo1] ["aloof"; "independent"].
Proof.
  assert (Hwf : store_wf [rex; milo1]).
  { intros a [<-|[<-|[]]]; eexists; reflexivity. }
  pose proof (filterByQuery_traits
                [("personalityTraits", JArr [JStr "aloof"; JStr "independent"])]
                [rex; milo1] ["aloof"; "independent"] Hwf
                (requested_many ["aloof"; "independent"])
                ltac:(discriminate)) as H.
  exact (conj (proj1 H) (proj1 (proj2 H))).
Defined.

(** Two traits really intersect: Rex is loyal, Milo is aloof, and nobody is
    both, although each single-trait query finds one record. *)
Example traits_intersect_not_union :
  filterByQuery [("personalityTraits", JArr [JStr "loyal"; JStr "aloof"])]
                [rex; milo1] = Ok []
  /\ filterByQuery [("personalityTraits", JStr "loyal")] [rex; milo1] = Ok [rex]
  /\ filterByQuery [("personalityTraits", JStr "aloof")] [rex; milo1] = Ok [milo1].
Proof. repeat split. Qed.

End TraitsQuery.

(** ** Filtering by a typed query *)

Module TypedQuery.
Import Js Server Spec Dec JsFacts FilterFacts Traits Sample.

Lemma get_js_of_query (k : string) (q : query) :
  get_prop k (js_of_query q)
  = match lookup k q with
    | Some v => js_of_qvalue v
    | None => JUndef
    end.
Proof.
  induction q as [|[k' v] rest IH]; simpl; auto.
  now destruct (String.eqb k k').
Qed.

Lemma strict_eq_array (x : value) (l : list value) :
  strict_eq x (JArr l) = false.
Proof. now destruct x. Qed.

Lemma effective_active (q : query) :
  effective_traits (get_prop "personalityTraits" (js_of_query q))
  = Some (map JStr (active_traits q)).
Proof.
  rewrite get_js_of_query. unfold active_traits, effective_traits.
  destruct (lookup "personalityTraits" q) as [[s|l]|]; simpl; auto.
  now destruct (String.eqb s "").
Qed.

Lemma active_traits_spec (q : query) (animal : object) :
  (forall t, In t (active_traits q) -> trait_present t animal)
  <-> (forall v, lookup "personalityTraits" q = Some v -> nonempty v ->
                 forall t, In t (normalize v) -> trait_present t animal).
Proof.
  unfold active_traits, nonempty.
  destruct (lookup "personalityTraits" q) as [[s|l]|]; simpl.
  - destruct (String.eqb_spec s ""); split.
    + intros _ v [= <-] Hv. subst s. now contradiction Hv.
    + intros _ t [].
    + intros H v [= <-] _. exact H.
    + intros H. apply (H (QStr s)); congruence.
  - split.
    + intros H v [= <-] _. exact H.
    + intros H. apply (H (QSeq l)); congruence.
  - split; [discriminate | intros _ t []].
Qed.

Lemma scalar_spec (k : string) (q : query) (animal : object) :
  scalar_b k (js_of_query q) animal = true
  <-> (forall v, lookup k q = Some v -> nonempty v -> field_equals k v animal).
Proof.
  unfold scalar_b, nonempty. rewrite get_js_of_query.
  destruct (lookup k q) as [[s|l]|]; simpl.
  - destruct (String.eqb_spec s ""); simpl; split.
    + intros _ v [= <-] Hv. subst s. now contradiction Hv.
    + reflexivity.
    + intros H v [= <-] _. now apply strict_eq_string.
    + intros H. apply strict_eq_string. apply (H (QStr s)); congruence.
  - rewrite strict_eq_array. split; [discriminate|].
    intros H. destruct (H (QSeq l)); congruence.
  - split; [discriminate | reflexivity].
Qed.

(** [decide_query] decides the conjunction of the non-empty criteria. *)
Lemma decide_query_spec (q : query) (animal : object) :
  decide_query q animal = true <-> satisfies nonempty q animal.
Proof.
  unfold decide_query, satisfies. rewrite matches_spec, active_traits_spec.
  unfold scalars_b. rewrite !andb_true_iff, !scalar_spec. tauto.
Qed.

(** C5, as stated, fails on an empty criterion: [diet=] is supplied, no
    record of the store has the diet [""], and still [filterByQuery]
    returns the whole store. *)
Lemma empty_criterion_is_ignored :
  store_wf [rex]
  /\ filterByQuery (js_of_query [("diet", QStr "")]) [rex] = Ok [rex]
  /\ ~ satisfies supplied [("diet", QStr "")] rex
  /\ ~ filter_spec supplied [("diet", QStr "")] [rex].
Proof.
  assert (Hno : ~ satisfies supplied [("diet", QStr "")] rex).
  { intros [_ [H _]]. specialize (H (QStr "") eq_refl I). discriminate H. }
  repeat split; auto.
  - intros a [<-|[]]. eexists. reflexivity.
  - intros [p [r [Hr [Hp [Hf _]]]]]. simpl in Hr. injection Hr as <-.
    apply Hno, Hp. simpl in Hf. destruct (p rex); [reflexivity | discriminate].
Qed.

(** C5 (amended): for every query and every store whose records all have a
    traits sequence, [filterByQuery] returns the sub-sequence of the store,
    in the store's order and with no record repeated that the store does
    not repeat, made of exactly the records that satisfy every supplied
    recognized criterion whose value is not the empty string; diet, species
    and name are matched by exact string equality with the record's field. *)
Theorem filterByQuery_conjunctive (q : query) (store : list object) :
  store_wf store -> filter_spec nonempty q store.
Proof.
  intros Hwf. exists (decide_query q), (filter (decide_query q) store).
  split; [|split; [|split; [|split]]].
  - apply filterByQuery_wf; [assumption | apply effective_active].
  - intros a. apply decide_query_spec.
  - reflexivity.
  - apply filter_Subseq.
  - apply NoDup_filter.
Qed.

Lemma filterByQuery_conjunctive_witness :
  filter_spec nonempty [("diet", QStr "omnivore");
                        ("personalityTraits", QStr "loyal")] [rex; milo1].
Proof.
  apply filterByQuery_conjunctive.
  intros a [<-|[<-|[]]]; eexists; reflexivity.
Defined.

End TypedQuery.

(** ** Queries without recognized keys, and the unguarded traits read *)

Module QueryKeys.
Import Js Server Spec Dec JsFacts FilterFacts Sample.

(** [filterByQuery] looks at the query through its four keys only. *)
Lemma filterByQuery_ext (q1 q2 : object) (store : list object) :
  (forall k, recognized k -> get_prop k q1 = get_prop k q2) ->
  filterByQuery q1 store = filterByQuery q2 store.
Proof.
  intros H. unfold filterByQuery, recognized in *.
  rewrite (H "personalityTraits"), (H "diet"), (H "species"), (H "name");
    auto.
Qed.

Lemma filter_all {A : Type} (p : A -> bool) (l : list A) :
  (forall x, p x = true) -> filter p l = l.
Proof.
  intros H. induction l as [|x rest IH]; simpl; auto.
  rewrite H. now f_equal.
Qed.

(** C8: a query with none of the keys [personalityTraits], [diet],
    [species], [name] makes [filterByQuery], and the list route with it,
    return the full store unchanged and in the same order; and setting an
    unrecognized key in any query does not change the result. *)
Theorem unrecognized_keys_ignored (query : object) (store : list object) :
  (forall k, recognized k -> has_prop k query = false) ->
  filterByQuery query store = Ok store
  /\ (forall disk, get_api_animals query (mkWorld store disk)
                   = (res_json (JArr (map JObj store)), mkWorld store disk))
  /\ (forall q k v, ~ recognized k ->
                    filterByQuery (set_prop k v q) store
                    = filterByQuery q store).
Proof.
  intros Hkeys.
  assert (Hundef : forall k, recognized k -> get_prop k query = JUndef).
  { intros k Hk. apply get_absent, Hkeys, Hk. }
  assert (Hall : filterByQuery query store = Ok store).
  { rewrite filterByQuery_no_traits.
    - f_equal. apply filter_all. intros a. unfold scalars_b, scalar_b.
      unfold recognized in Hundef.
      now rewrite (Hundef "diet"), (Hundef "species"), (Hundef "name")
        by auto.
    - now rewrite Hundef by (left; reflexivity). }
  split; [exact Hall | split].
  - intros disk. unfold get_api_animals. simpl. now rewrite Hall.
  - intros q k v Hk. apply filterByQuery_ext. intros k' Hk'.
    apply get_set_other. intros ->. now apply Hk.
Qed.

Lemma unrecognized_keys_ignored_witness :
  filterByQuery [("color", JStr "brown"); ("limit", JStr "3")] [rex; milo1]
  = Ok [rex; milo1].
Proof.
  apply (unrecognized_keys_ignored
           [("color", JStr "brown"); ("limit", JStr "3")] [rex; milo1]).
  intros k [ -> | [ -> | [ -> | -> ] ] ]; reflexivity.
Defined.

(** C10: [filterByQuery] reads [animal.personalityTraits.indexOf] without
    a guard; over a store whose records all have a traits sequence that
    read never throws, so the only exception [filterByQuery] can raise is
    the call of [forEach] on a traits value that is neither a string nor an
    array, and for a string or an array it returns a result. *)
Theorem traits_read_never_fails (query : object) (store : list object) :
  store_wf store ->
  (forall trait animal, In animal store ->
                        exists b, has_trait trait animal = Ok b)
  /\ (forall e, filterByQuery query store = Throw e ->
                e = NotAFunction "forEach")
  /\ (is_string (get_prop "personalityTraits" query)
      \/ is_array (get_prop "personalityTraits" query) ->
      exists r, filterByQuery query store = Ok r).
Proof.
  intros Hwf. split; [|split].
  - intros trait a Ha. destruct (Hwf a Ha) as [l Hl].
    eexists. eapply has_trait_array, Hl.
  - intros e He.
    destruct (effective_traits (get_prop "personalityTraits" query))
      as [ts|] eqn:Hts.
    + rewrite (filterByQuery_wf _ _ _ Hwf Hts) in He. discriminate.
    + unfold filterByQuery in He. unfold effective_traits in Hts.
      destruct (get_prop "personalityTraits" query) as [| |[|]|n|s|l|ps];
        simpl in Hts, He; try discriminate; try congruence.
      * destruct (negb (n =? 0)%Z); simpl in He; try discriminate.
        congruence.
      * destruct (negb (s =? "")%string); discriminate.
  - intros [[s Hs]|[l Hl]].
    + destruct (truthy (JStr s)) eqn:Ht; eexists;
        eapply filterByQuery_wf; try exact Hwf;
        rewrite Hs; unfold effective_traits; rewrite Ht; reflexivity.
    + eexists. eapply filterByQuery_wf; [exact Hwf|].
      rewrite Hl. reflexivity.
Qed.

Lemma traits_read_never_fails_witness :
  exists r, filterByQuery [("personalityTraits", JStr "loyal")] [rex; milo1]
            = Ok r.
Proof.
  assert (Hwf : store_wf [rex; milo1]).
  { intros a [<-|[<-|[]]]; eexists; reflexivity. }
  apply (proj2 (proj2 (traits_read_never_fails
                         [("personalityTraits", JStr "loyal")]
                         [rex; milo1] Hwf))).
  left. exists "loyal". reflexivity.
Defined.

(** Without the invariant the read does throw: a record with no
    [personalityTraits] makes the filter fail as soon as a trait is asked. *)
Example traits_read_unguarded :
  filterByQuery [("personalityTraits", JStr "loyal")]
                [rex; [("id", JStr "1"); ("name", JStr "Bo")]]
  = Throw (CannotReadProperty "indexOf").
Proof. reflexivity. Qed.

End QueryKeys.

(** ** Lookup by id *)

Module Lookup.
Import Js Server Spec JsFacts Sample.

Lemma findById_cons (id : value) (animal : object) (store : list object) :
  findById id (animal :: store)
  = if strict_eq (get_prop "id" animal) id then Some animal
    else findById id store.
Proof.
  unfold findById. simpl. now destruct (strict_eq (get_prop "id" animal) id).
Qed.

Lemma findById_none (id : string) (store : list object) :
  findById (JStr id) store = None
  <-> forall animal, In animal store -> get_prop "id" animal <> JStr id.
Proof.
  induction store as [|a rest IH]; [split; [intros _ b [] | reflexivity]|].
  rewrite findById_cons.
  destruct (strict_eq (get_prop "id" a) (JStr id)) eqn:E.
  - apply strict_eq_string in E. split; [discriminate|].
    intros H. exfalso. apply (H a); [now left | exact E].
  - rewrite IH. split.
    + intros H b [<-|Hb]; [|now apply H].
      intros Hid. apply strict_eq_string in Hid. congruence.
    + intros H b Hb. apply H. now right.
Qed.

Lemma findById_some (id : string) (store : list object) (animal : object) :
  findById (JStr id) store = Some animal
  <-> exists pre post,
        store = pre ++ animal :: post
        /\ get_prop "id" animal = JStr id
        /\ forall b, In b pre -> get_prop "id" b <> JStr id.
Proof.
  induction store as [|a rest IH].
  - split; [discriminate|]. intros [[|? ?] [post [H _]]]; discriminate.
  - rewrite findById_cons.
    destruct (strict_eq (get_prop "id" a) (JStr id)) eqn:E.
    + split.
      * intros [= <-]. exists [], rest. apply strict_eq_string in E.
        repeat split; auto; intros b [].
      * intros [[|b pre] [post [Hs [Hid Hpre]]]]; simpl in Hs.
        -- now injection Hs as <- _.
        -- injection Hs as <- _. apply strict_eq_string in E.
           exfalso. apply (Hpre a); [now left | exact E].
    + rewrite IH. split.
      * intros [pre [post [Hs [Hid Hpre]]]]. exists (a :: pre), post.
        subst rest. repeat split; auto. intros b [<-|Hb]; [|now apply Hpre].
        intros Hb. apply strict_eq_string in Hb. congruence.
      * intros [[|b pre] [post [Hs [Hid Hpre]]]]; simpl in Hs.
        -- injection Hs as <- _. apply strict_eq_string in Hid. congruence.
        -- injection Hs as <- ->. exists pre, post. repeat split; auto.
           intros c Hc. apply Hpre. now right.
Qed.

(** C7: for every id string and store, [findById] returns the first record
    whose id equals the input; when no record matches it returns the absent
    value, and the route answers with [res.send(404)] without touching the
    store: no exception is involved. *)
Theorem findById_first (id : string) (store : list object) :
  (forall animal,
      findById (JStr id) store = Some animal
      <-> exists pre post,
            store = pre ++ animal :: post
            /\ get_prop "id" animal = JStr id
            /\ forall b, In b pre -> get_prop "id" b <> JStr id)
  /\ (findById (JStr id) store = None
      <-> forall animal, In animal store -> get_prop "id" animal <> JStr id)
  /\ (forall disk,
         get_api_animals_id id (mkWorld store disk)
         = (match findById (JStr id) store with
            | Some animal => res_json (JObj animal)
            | None => res_send 404
            end, mkWorld store disk)).
Proof.
  split; [|split].
  - intros a. apply findById_some.
  - apply findById_none.
  - intros disk. unfold get_api_animals_id. simpl.
    now destruct (findById (JStr id) store).
Qed.

(** The theorem at an id the store has and at one it does not have. *)
Lemma findById_first_witness :
  findById (JStr "1") [rex; milo1] = Some milo1
  /\ get_api_animals_id "7" (mkWorld [rex; milo1] disk0)
     = (res_send 404, mkWorld [rex; milo1] disk0).
Proof.
  split.
  - apply (proj1 (findById_first "1" [rex; milo1])).
    exists [rex], []. repeat split.
    intros b [<-|[]]. discriminate.
  - exact (proj2 (proj2 (findById_first "7" [rex; milo1])) disk0).
Defined.

End Lookup.

(** ** Validation and insertion *)

Module Insert.
Import Js Server Spec Dec JsFacts Sample.

(** One guard of [validateAnimal]: the field is missing (falsy) or is not
    a string. *)
Lemma string_guard (v : value) :
  negb (truthy v) || negb (String.eqb (typeof v) "string") = false
  <-> nonempty_string v.
Proof.
  unfold nonempty_string. destruct v as [| |b|n|s|l|ps]; simpl;
    try (split; [try discriminate; rewrite orb_true_r; discriminate
                | intros [s' [H _]]; discriminate]).
  rewrite orb_false_r, negb_false_iff, negb_true_iff. split.
  - intros H. exists s. split; auto. now apply String.eqb_neq.
  - intros [s' [[= <-] H]]. now apply String.eqb_neq.
Qed.

Lemma array_guard (v : value) :
  negb (truthy v) || negb (Array_isArray v) = false <-> is_array v.
Proof.
  unfold is_array. destruct v as [| |b|n|s|l|ps]; simpl;
    try (split; [try discriminate; rewrite orb_true_r; discriminate
                | intros [l' H]; discriminate]).
  split; [intros _; now exists l | reflexivity].
Qed.

Lemma validateAnimal_iff (animal : object) :
  validateAnimal animal = true
  <-> nonempty_string (get_prop "name" animal)
      /\ nonempty_string (get_prop "species" animal)
      /\ nonempty_string (get_prop "diet" animal)
      /\ is_array (get_prop "personalityTraits" animal).
Proof.
  unfold validateAnimal.
  rewrite <- !string_guard, <- array_guard.
  destruct (negb (truthy (get_prop "name" animal)) || _);
    [intuition discriminate|].
  destruct (negb (truthy (get_prop "species" animal)) || _);
    [intuition discriminate|].
  destruct (negb (truthy (get_prop "diet" animal)) || _);
    [intuition discriminate|].
  destruct (negb (truthy (get_prop "personalityTraits" animal)) || _);
    intuition discriminate.
Qed.

(** The id does not take part in the validation. *)
Lemma validateAnimal_set_id (v : value) (body : object) :
  validateAnimal (set_prop "id" v body) = validateAnimal body.
Proof.
  unfold validateAnimal. now rewrite !get_set_other by discriminate.
Qed.

Lemma envelope_serializes (store : list object) :
  exists data, JSON_stringify (envelope store) 2 = Some data.
Proof.
  apply serialize_defined. discriminate.
Qed.

Lemma post_rejected (body : object) (w : world) :
  validateAnimal body = false ->
  post_api_animals body w
  = (res_status_send 400 "The animal is not properly formatted.", w).
Proof.
  intros H. unfold post_api_animals.
  now rewrite validateAnimal_set_id, H.
Qed.

Lemma post_accepted (body : object) (w : world) :
  validateAnimal body = true -> writable (fs w) = true ->
  exists data,
    JSON_stringify (envelope (animals w ++ [candidate body w])) 2 = Some data
    /\ post_api_animals body w
       = (res_json (JObj (candidate body w)),
          mkWorld (animals w ++ [candidate body w])
                  (mkFs data true (S (writes (fs w))))).
Proof.
  intros Hv Hw.
  destruct (envelope_serializes (animals w ++ [candidate body w]))
    as [data Hd].
  exists data. split; [exact Hd|].
  unfold post_api_animals. rewrite validateAnimal_set_id, Hv. simpl.
  unfold createNewAnimal. fold (candidate body w).
  fold (envelope (animals w ++ [candidate body w])). rewrite Hd.
  unfold writeFileSync. now rewrite Hw.
Qed.

Lemma post_write_failed (body : object) (w : world) :
  validateAnimal body = true -> writable (fs w) = false ->
  post_api_animals body w
  = (uncaught WriteFailed, mkWorld (animals w ++ [candidate body w]) (fs w)).
Proof.
  intros Hv Hw.
  destruct (envelope_serializes (animals w ++ [candidate body w]))
    as [data Hd].
  unfold post_api_animals. rewrite validateAnimal_set_id, Hv. simpl.
  unfold createNewAnimal. fold (candidate body w).
  fold (envelope (animals w ++ [candidate body w])). rewrite Hd.
  unfold writeFileSync. now rewrite Hw.
Qed.

(** What a successful insert looks like. *)
Lemma post_success (body : object) (w w' : world) (v : value) :
  post_api_animals body w = (res_json v, w') ->
  validateAnimal body = true
  /\ writable (fs w) = true
  /\ v = JObj (candidate body w)
  /\ animals w' = animals w ++ [candidate body w]
  /\ writes (fs w') = S (writes (fs w))
  /\ writable (fs w') = true
  /\ in_sync w'.
Proof.
  intros H. destruct (validateAnimal body) eqn:Hv.
  - destruct (writable (fs w)) eqn:Hw.
    + destruct (post_accepted body w Hv Hw) as [data [Hd Hp]].
      rewrite Hp in H. injection H as <- <-.
      unfold in_sync. simpl. auto 10.
    + rewrite (post_write_failed body w Hv Hw) in H. discriminate.
  - rewrite (post_rejected body w Hv) in H. discriminate.
Qed.

End Insert.

(** ** The store over a run of requests *)

Module Store.
Import Js Server Spec Dec JsFacts FilterFacts Insert Sample.

Lemma candidate_id (body : object) (w : world) :
  get_prop "id" (candidate body w)
  = JStr (nat_toString (List.length (animals w))).
Proof. apply get_set_same. Qed.

Lemma candidate_traits (body : object) (w : world) :
  validateAnimal body = true ->
  is_array (get_prop "personalityTraits" (candidate body w)).
Proof.
  intros H. apply validateAnimal_iff in H. unfold candidate.
  rewrite get_set_other by discriminate. apply H.
Qed.

(** A request leaves the world alone, or it is an insert of a validated
    candidate, appended under the id of its index; the file follows when
    the write goes through. *)
Lemma handle_cases (r : request) (w : world) :
  snd (handle r w) = w
  \/ exists body,
       r = POST_animal body
       /\ validateAnimal body = true
       /\ animals (snd (handle r w)) = animals w ++ [candidate body w]
       /\ writable (fs (snd (handle r w))) = writable (fs w)
       /\ (writable (fs w) = true -> in_sync (snd (handle r w))).
Proof.
  destruct r as [query|id|body]; simpl.
  - left. unfold get_api_animals.
    now destruct (if truthy (JObj query) then _ else _).
  - left. unfold get_api_animals_id.
    destruct (findById (JStr id) (animals w)); [|reflexivity].
    now destruct (truthy (JObj o)).
  - destruct (validateAnimal body) eqn:Hv.
    + right. exists body. destruct (writable (fs w)) eqn:Hw.
      * destruct (post_accepted body w Hv Hw) as [data [Hd Hp]].
        rewrite Hp. simpl. repeat split; auto.
      * rewrite (post_write_failed body w Hv Hw). simpl.
        repeat split; auto. discriminate.
    + left. now rewrite (post_rejected body w Hv).
Qed.

Lemma indexed_snoc (store : list object) (animal : object) :
  indexed_ids store ->
  get_prop "id" animal = JStr (nat_toString (List.length store)) ->
  indexed_ids (store ++ [animal]).
Proof.
  intros H Hid i b Hb.
  destruct (Nat.lt_ge_cases i (List.length store)) as [Hlt|Hge].
  - rewrite nth_error_app1 in Hb by assumption. now apply H.
  - rewrite nth_error_app2 in Hb by assumption.
    destruct (i - List.length store) as [|k] eqn:Hk; simpl in Hb.
    + injection Hb as <-. replace i with (List.length store) by lia.
      exact Hid.
    + now destruct k.
Qed.

Lemma indexed_fresh (store : list object) :
  indexed_ids store -> next_id_fresh store.
Proof.
  intros H a Ha Hid. apply In_nth_error in Ha. destruct Ha as [i Hi].
  assert (Hlt : i < List.length store).
  { apply nth_error_Some. congruence. }
  rewrite (H i a Hi) in Hid. injection Hid as Hid.
  apply nat_toString_inj in Hid. lia.
Qed.

Lemma indexed_unique (store : list object) :
  indexed_ids store -> unique_ids store.
Proof.
  intros H. unfold unique_ids. apply NoDup_nth_error. intros i j Hi Hij.
  rewrite length_map in Hi. rewrite !nth_error_map in Hij.
  destruct (nth_error store i) as [a|] eqn:Ha;
    [|apply nth_error_None in Ha; lia].
  destruct (nth_error store j) as [b|] eqn:Hb; [|discriminate].
  simpl in Hij. rewrite (H i a Ha), (H j b Hb) in Hij.
  injection Hij as Hij. now apply nat_toString_inj.
Qed.

(** The data model's invariants hold along every run of requests. *)
Lemma store_wf_run (rs : list request) (w : world) :
  store_wf (animals w) -> store_wf (animals (run rs w)).
Proof.
  revert w. induction rs as [|r rest IH]; intros w H; simpl; auto.
  apply IH. destruct (handle_cases r w) as [->|[body [_ [Hv [-> _]]]]]; auto.
  apply store_wf_snoc; auto. now apply candidate_traits.
Qed.

Lemma indexed_ids_run (rs : list request) (w : world) :
  indexed_ids (animals w) -> indexed_ids (animals (run rs w)).
Proof.
  revert w. induction rs as [|r rest IH]; intros w H; simpl; auto.
  apply IH. destruct (handle_cases r w) as [->|[body [_ [Hv [-> _]]]]]; auto.
  apply indexed_snoc; auto. apply candidate_id.
Qed.

(** As long as writes go through, the file follows the store. *)
Lemma in_sync_run (rs : list request) (w : world) :
  writable (fs w) = true -> in_sync w -> in_sync (run rs w).
Proof.
  revert w. induction rs as [|r rest IH]; intros w Hw H; simpl; auto.
  destruct (handle_cases r w) as [->|[body [_ [_ [_ [Hw' Hs]]]]]]; auto.
  apply IH; [congruence | auto].
Qed.

End Store.

(** ** Creating an animal *)

Module Create.
Import Js Server Spec Dec JsFacts Lookup Insert Store Sample.

(** C2: for every store and candidate, the insert route gives the
    candidate the decimal string of the store's length before insertion as
    its id (a store of length 5 gives ["5"]); whenever the route returns a
    record, it is that candidate, and it is the one appended to the store;
    and it does return one when the candidate is valid and the write goes
    through. *)
Theorem post_assigns_length_id (body : object) (w : world) :
  get_prop "id" (candidate body w)
  = JStr (nat_toString (List.length (animals w)))
  /\ (List.length (animals w) = 5 ->
      get_prop "id" (candidate body w) = JStr "5")
  /\ (forall v w', post_api_animals body w = (res_json v, w') ->
                   v = JObj (candidate body w)
                   /\ animals w' = animals w ++ [candidate body w])
  /\ (validateAnimal body = true -> writable (fs w) = true ->
      exists w', post_api_animals body w
                 = (res_json (JObj (candidate body w)), w')).
Proof.
  split; [apply candidate_id | split; [|split]].
  - intros H. rewrite candidate_id, H. reflexivity.
  - intros v w' H. apply post_success in H. tauto.
  - intros Hv Hw. destruct (post_accepted body w Hv Hw) as [data [_ Hp]].
    eexists. exact Hp.
Qed.

(** The end-to-end example of the specification: Milo joins Rex and gets
    the id ["1"]. *)
Lemma post_assigns_length_id_witness :
  exists w', post_api_animals milo w0 = (res_json (JObj milo1), w').
Proof.
  apply (proj2 (proj2 (proj2 (post_assigns_length_id milo w0))));
    reflexivity.
Defined.

(** C3, as stated, fails: a candidate whose name is the empty string has
    its four fields present with the right types, and [validateAnimal]
    rejects it. *)
Lemma empty_name_rejected :
  is_string (get_prop "name" nameless)
  /\ is_string (get_prop "species" nameless)
  /\ is_string (get_prop "diet" nameless)
  /\ is_array (get_prop "personalityTraits" nameless)
  /\ validateAnimal nameless = false.
Proof.
  repeat split; eexists; reflexivity.
Qed.

(** C3 (amended): [validateAnimal] passes exactly the candidates whose
    name, species and diet are non-empty strings and whose
    personalityTraits is an array (an empty array included); the content of
    a non-empty string is not validated further, and an empty name, species
    or diet is rejected like a missing one. *)
Theorem validateAnimal_accepts (animal : object) :
  validateAnimal animal = true
  <-> nonempty_string (get_prop "name" animal)
      /\ nonempty_string (get_prop "species" animal)
      /\ nonempty_string (get_prop "diet" animal)
      /\ is_array (get_prop "personalityTraits" animal).
Proof. apply validateAnimal_iff. Qed.

(** The validator's example of the specification: the lion without a name
    is rejected, and accepted once it is called Leo. *)
Example validateAnimal_lion :
  validateAnimal lion = false
  /\ validateAnimal (("name", JStr "Leo") :: lion) = true
  /\ validateAnimal [("name", JStr " "); ("species", JStr "?");
                     ("diet", JStr "-"); ("personalityTraits", JArr [])]
     = true.
Proof. repeat split. Qed.

(** C4: after every successful insert the data file's content is the
    serialization, with two spaces of indentation, of the envelope
    [{ animals: [...] }] holding the whole new in-memory sequence: one
    write has replaced the file, whatever it held, and file and store are
    in sync when the route returns. *)
Theorem insert_writes_through (body : object) (w w' : world) (v : value) :
  post_api_animals body w = (res_json v, w') ->
  animals w' = animals w ++ [candidate body w]
  /\ JSON_stringify (JObj [("animals", JArr (map JObj (animals w')))]) 2
     = Some (animals_json (fs w'))
  /\ writes (fs w') = S (writes (fs w))
  /\ exists items,
       serialize "  " "  " (JArr (map JObj (animals w'))) = Some items
       /\ animals_json (fs w')
          = ("{" ++ newline ++ "  " ++ quote "animals" ++ ": " ++ items
                 ++ newline ++ "}")%string.
Proof.
  intros H. apply post_success in H.
  destruct H as [_ [_ [_ [Ha [Hn [_ Hs]]]]]].
  repeat split; auto.
  unfold in_sync, envelope, JSON_stringify in Hs. simpl in Hs.
  destruct (serialize_defined "  " "  " (JArr (map JObj (animals w'))))
    as [items Hi]; [discriminate|].
  exists items. split; [exact Hi|]. simpl in Hi. rewrite Hi in Hs.
  simpl in Hs. now injection Hs as <-.
Qed.

Lemma insert_writes_through_witness :
  JSON_stringify
    (JObj [("animals", JArr (map JObj (animals (snd (post_api_animals milo w0)))))])
    2
  = Some (animals_json (fs (snd (post_api_animals milo w0)))).
Proof.
  apply (insert_writes_through milo w0 (snd (post_api_animals milo w0))
                                (JObj milo1)).
  reflexivity.
Defined.

End Create.

(** ** Rejection, and lookup of a fresh record *)

Module Roundtrip.
Import Js Server Spec Dec JsFacts Lookup Insert Store Sample.

Lemma createNewAnimal_pushes (body : object) (animalsArray : list object)
    (disk : file_system) :
  snd (fst (createNewAnimal body animalsArray disk)) = animalsArray ++ [body].
Proof.
  unfold createNewAnimal.
  destruct (JSON_stringify _ 2); [|reflexivity].
  now destruct (writeFileSync s disk) as [[u|e] disk'].
Qed.

(** C9: for every candidate that fails validation the insert route answers
    with the validation error (status 400) and leaves the world as it was:
    the in-memory store, the file's content and the number of file writes
    are unchanged; the record writer was not called, since a call of it
    always lengthens the store. *)
Theorem invalid_candidate_changes_nothing (body : object) (w : world) :
  validateAnimal body = false ->
  post_api_animals body w
  = (res_status_send 400 "The animal is not properly formatted.", w)
  /\ animals (snd (post_api_animals body w)) = animals w
  /\ animals_json (fs (snd (post_api_animals body w))) = animals_json (fs w)
  /\ writes (fs (snd (post_api_animals body w))) = writes (fs w)
  /\ (forall b l disk, snd (fst (createNewAnimal b l disk)) <> l).
Proof.
  intros H. rewrite (post_rejected body w H). simpl. repeat split.
  intros b l disk Heq. rewrite createNewAnimal_pushes in Heq.
  apply (f_equal (@List.length object)) in Heq.
  rewrite length_app in Heq. simpl in Heq. lia.
Qed.

Lemma invalid_candidate_changes_nothing_witness :
  post_api_animals lion w0
  = (res_status_send 400 "The animal is not properly formatted.", w0).
Proof.
  apply (invalid_candidate_changes_nothing lion w0). reflexivity.
Defined.

(** C6, as stated, fails: the store holding one record under the id ["1"]
    has unique ids, Milo is valid and is created under the id ["1"] as
    well, and the lookup of that id returns the older record. *)
Lemma lookup_finds_older_record :
  unique_ids (animals w1)
  /\ validateAnimal milo = true
  /\ fst (post_api_animals milo w1) = res_json (JObj milo1)
  /\ findById (get_prop "id" milo1) (animals (snd (post_api_animals milo w1)))
     = Some rex1
  /\ rex1 <> milo1.
Proof.
  repeat split; try discriminate.
  unfold unique_ids. simpl. constructor; [intros [] | constructor].
Qed.

(** C6 (amended): for every store in which no record already carries the
    id the insert is about to assign, the decimal string of the store's
    length (as in every store whose records carry their index as id), and
    every candidate the route accepts, looking up the id of the returned
    record succeeds and returns that record, through [findById] and through
    the lookup route. *)
Theorem lookup_after_insert (body : object) (w w' : world) (animal : object) :
  next_id_fresh (animals w) ->
  post_api_animals body w = (res_json (JObj animal), w') ->
  findById (get_prop "id" animal) (animals w') = Some animal
  /\ get_api_animals_id (nat_toString (List.length (animals w))) w'
     = (res_json (JObj animal), w').
Proof.
  intros Hfresh H. apply post_success in H.
  destruct H as [_ [_ [Hv [Ha _]]]]. injection Hv as ->.
  assert (Hfind : findById (JStr (nat_toString (List.length (animals w))))
                           (animals w') = Some (candidate body w)).
  { apply findById_some. exists (animals w), []. rewrite Ha.
    repeat split; [apply candidate_id | exact Hfresh]. }
  split.
  - now rewrite candidate_id.
  - unfold get_api_animals_id. now rewrite Hfind.
Qed.

Lemma lookup_after_insert_witness :
  findById (get_prop "id" milo1) (animals (snd (post_api_animals milo w0)))
  = Some milo1.
Proof.
  apply (lookup_after_insert milo w0 (snd (post_api_animals milo w0)) milo1).
  - apply indexed_fresh. intros [|[|i]] a Ha; simpl in Ha; try discriminate.
    now injection Ha as <-.
  - reflexivity.
Defined.

End Roundtrip.

(** ** The filter on arbitrary stores *)

Module FilterTotal.
Import Js Server Spec Dec Total JsFacts FilterFacts.

Lemma filter_throwing_ok {A : Type} (f : A -> outcome bool) (l r : list A) :
  filter_throwing f l = Ok r ->
  r = filter (fun x => match f x with Ok b => b | Throw _ => false end) l.
Proof.
  revert r. induction l as [|x rest IH]; simpl; intros r H.
  - now injection H as <-.
  - destruct (f x) as [b|e]; simpl in H; [|discriminate].
    destruct (filter_throwing f rest) as [r'|e]; simpl in H; [|discriminate].
    injection H as <-. rewrite <- (IH r' eq_refl). now destruct b.
Qed.

Lemma filter_throwing_kept {A : Type} (f : A -> outcome bool) (l : list A) :
  (forall x, In x l -> f x = Ok true) -> filter_throwing f l = Ok l.
Proof.
  induction l as [|x rest IH]; intros H; simpl; auto.
  rewrite (H x (or_introl eq_refl)). simpl.
  rewrite IH by (intros y Hy; apply H; now right). reflexivity.
Qed.

Lemma forEach_trait_ok (ts : list value) (l r : list object) :
  forEach_trait ts l = Ok r ->
  r = filter (fun a => forallb (fun t => would_keep t a) ts) l.
Proof.
  revert l r. induction ts as [|t rest IH]; simpl; intros l r H.
  - injection H as <-. symmetry. clear. induction l; simpl; congruence.
  - destruct (filter_throwing (has_trait t) l) as [l1|e] eqn:E; simpl in H;
      [|discriminate].
    apply filter_throwing_ok in E. apply IH in H. subst l1 r.
    apply filter_twice.
Qed.

Lemma forEach_trait_kept (ts : list value) (l : list object) :
  (forall a t, In a l -> In t ts -> has_trait t a = Ok true) ->
  forEach_trait ts l = Ok l.
Proof.
  induction ts as [|t rest IH]; intros H; simpl; auto.
  rewrite filter_throwing_kept by (intros a Ha; apply H; simpl; auto).
  simpl. apply IH. intros a t' Ha Ht. apply H; simpl; auto.
Qed.

Lemma would_keep_true (t : value) (a : object) :
  would_keep t a = true -> has_trait t a = Ok true.
Proof.
  unfold would_keep. destruct (has_trait t a) as [b|e]; intros H;
    [now subst | discriminate].
Qed.

Lemma filter_kept {A : Type} (p : A -> bool) (l : list A) :
  (forall x, In x l -> p x = true) -> filter p l = l.
Proof.
  induction l as [|x rest IH]; intros H; simpl; auto.
  rewrite (H x (or_introl eq_refl)). f_equal. apply IH.
  intros y Hy. apply H. now right.
Qed.

(** The traits stage of [filterByQuery], for a truthy traits value. *)
Lemma traits_loop (query : object) (store : list object) :
  truthy (get_prop "personalityTraits" query) = true ->
  filterByQuery query store
  = (r <- forEach_call
            (if String.eqb (typeof (get_prop "personalityTraits" query))
                           "string"
             then JArr [get_prop "personalityTraits" query]
             else get_prop "personalityTraits" query) store ;;
     Ok (filter (scalars_b query) r)).
Proof.
  intros Ht. unfold filterByQuery. rewrite Ht.
  destruct (forEach_call _ store) as [r|e]; simpl; [|reflexivity].
  f_equal. apply scalar_filters.
Qed.

(** Whenever [filterByQuery] returns, its result is the store filtered by
    the total test [keep]. *)
Lemma filterByQuery_ok (query : object) (store r : list object) :
  filterByQuery query store = Ok r -> r = filter (keep query) store.
Proof.
  intros H. unfold keep, asked_traits.
  destruct (truthy (get_prop "personalityTraits" query)) eqn:Ht.
  - rewrite traits_loop in H by assumption.
    destruct (effective_traits (get_prop "personalityTraits" query))
      as [ts|] eqn:Hts.
    + rewrite (traits_stage _ _ _ Ht Hts) in H.
      destruct (forEach_trait ts store) as [r1|e] eqn:E; simpl in H;
        [|discriminate].
      injection H as <-. apply forEach_trait_ok in E. subst r1.
      apply filter_twice.
    + unfold effective_traits in Hts. rewrite Ht in Hts.
      destruct (get_prop "personalityTraits" query); try discriminate;
        simpl in H; discriminate.
  - rewrite filterByQuery_no_traits in H by assumption.
    injection H as <-. unfold effective_traits. now rewrite Ht.
Qed.

(** X1: for every query and every store, also one that breaks the data
    model, a result of [filterByQuery] is a sub-sequence of the store: the
    filter adds no record, repeats none and keeps the store's order. *)
Theorem filterByQuery_subsequence (query : object) (store r : list object) :
  filterByQuery query store = Ok r ->
  Subseq r store /\ List.length r <= List.length store
  /\ (forall animal, In animal r -> In animal store).
Proof.
  intros H. apply filterByQuery_ok in H. subst r. repeat split.
  - apply filter_Subseq.
  - apply filter_length_le.
  - intros a Ha. now apply filter_In in Ha.
Qed.

(** X2: filtering is idempotent: running the same query on its own result
    returns that result, for every query and store. *)
Theorem filterByQuery_idempotent (query : object) (store r : list object) :
  filterByQuery query store = Ok r -> filterByQuery query r = Ok r.
Proof.
  intros H. pose proof (filterByQuery_ok _ _ _ H) as Hr.
  assert (Hkeep : forall a, In a r -> keep query a = true).
  { intros a Ha. rewrite Hr in Ha. now apply filter_In in Ha. }
  destruct (truthy (get_prop "personalityTraits" query)) eqn:Ht.
  - rewrite traits_loop in * by assumption.
    destruct (effective_traits (get_prop "personalityTraits" query))
      as [ts|] eqn:Hts.
    + rewrite (traits_stage _ _ _ Ht Hts).
      rewrite forEach_trait_kept.
      * simpl. f_equal. apply filter_kept. intros a Ha.
        apply Hkeep in Ha. unfold keep in Ha.
        now apply andb_true_iff in Ha.
      * intros a t Ha Hin. apply would_keep_true.
        apply Hkeep in Ha. unfold keep, asked_traits in Ha. rewrite Hts in Ha.
        apply andb_true_iff in Ha. destruct Ha as [Ha _].
        rewrite forallb_forall in Ha. now apply Ha.
    + unfold effective_traits in Hts. rewrite Ht in Hts.
      destruct (get_prop "personalityTraits" query); try discriminate;
        simpl in H; discriminate.
  - rewrite filterByQuery_no_traits by assumption. f_equal.
    apply filter_kept. intros a Ha. apply Hkeep in Ha. unfold keep in Ha.
    now apply andb_true_iff in Ha.
Qed.

End FilterTotal.

(** ** How the filter composes, and how it fails *)

Module FilterCompose.
Import Js Server Spec Dec Total JsFacts FilterFacts FilterTotal Insert Sample.






(** X5: a [personalityTraits] value that is an object (as the query
    string [personalityTraits[a]=b] gives) makes [filterByQuery] throw on
    every store, the empty one included: [forEach] is not a function of
    it.  The list route lets the exception through and changes nothing. *)
Theorem traits_object_throws (query : object) (store : list object)
    (ps : list (string * value)) :
  get_prop "personalityTraits" query = JObj ps ->
  filterByQuery query store = Throw (NotAFunction "forEach")
  /\ forall disk,
       get_api_animals query (mkWorld store disk)
       = (uncaught (NotAFunction "forEach"), mkWorld store disk).
Proof.
  intros H.
  assert (Hf : filterByQuery query store = Throw (NotAFunction "forEach")).
  { rewrite traits_loop by now rewrite H. now rewrite H. }
  split; [exact Hf|]. intros disk. unfold get_api_animals. simpl.
  now rewrite Hf.
Qed.

Lemma traits_object_throws_witness :
  filterByQuery [("personalityTraits", JObj [("a", JStr "b")])] []
  = Throw (NotAFunction "forEach").
Proof.
  apply (traits_object_throws
           [("personalityTraits", JObj [("a", JStr "b")])] []
           [("a", JStr "b")]).
  reflexivity.
Defined.

Lemma has_trait_throws (t : value) (a : object) :
  no_indexOf a -> exists e, has_trait t a = Throw e /\ indexOf_error e.
Proof.
  unfold no_indexOf, has_trait, indexOf_error.
  destruct (get_prop "personalityTraits" a); intros H;
    try contradiction; eexists; split; eauto.
Qed.

Lemma has_trait_error (t : value) (a : object) (e : exn) :
  has_trait t a = Throw e -> indexOf_error e.
Proof.
  unfold has_trait, indexOf_error.
  destruct (get_prop "personalityTraits" a); intros [= <-]; auto.
Qed.

Lemma filter_throwing_throws (t : value) (l : list object) (a : object) :
  In a l -> no_indexOf a ->
  exists e, filter_throwing (has_trait t) l = Throw e /\ indexOf_error e.
Proof.
  induction l as [|x rest IH]; intros Hin Hbad; [contradiction|].
  simpl. destruct (has_trait t x) as [b|e] eqn:E; simpl.
  - destruct Hin as [->|Hin].
    + destruct (has_trait_throws t a Hbad) as [e [He _]]. congruence.
    + destruct (IH Hin Hbad) as [e [He HP]]. rewrite He. simpl. eauto.
  - exists e. split; [reflexivity | eapply has_trait_error; eauto].
Qed.

(** X6: one record without a traits array or string makes every trait
    query fail: when the query asks for a non-empty string or a non-empty
    array of traits and the store holds such a record anywhere,
    [filterByQuery] throws on the unguarded [indexOf]. *)
Theorem malformed_record_breaks_trait_queries (query : object)
    (store : list object) (animal : object) :
  (exists s, get_prop "personalityTraits" query = JStr s /\ s <> "")
  \/ (exists t ts, get_prop "personalityTraits" query = JArr (t :: ts)) ->
  In animal store -> no_indexOf animal ->
  exists e, filterByQuery query store = Throw e /\ indexOf_error e.
Proof.
  intros Hq Hin Hbad.
  assert (Hloop : exists t ts,
             truthy (get_prop "personalityTraits" query) = true
             /\ effective_traits (get_prop "personalityTraits" query)
                = Some (t :: ts)).
  { destruct Hq as [[s [Hs Hne]]|[t [ts Hts]]].
    - exists (JStr s), []. rewrite Hs. unfold effective_traits.
      apply truthy_string in Hne. now rewrite Hne.
    - exists t, ts. now rewrite Hts. }
  destruct Hloop as [t [ts [Ht Hts]]].
  rewrite traits_loop, (traits_stage _ _ _ Ht Hts) by assumption. simpl.
  destruct (filter_throwing_throws t store animal Hin Hbad) as [e [He HP]].
  exists e. rewrite He. simpl. auto.
Qed.

Lemma malformed_record_breaks_trait_queries_witness :
  exists e,
    filterByQuery [("personalityTraits", JStr "loyal")]
                  [rex; [("id", JStr "1"); ("name", JStr "Bo")]] = Throw e
    /\ indexOf_error e.
Proof.
  apply (malformed_record_breaks_trait_queries
           [("personalityTraits", JStr "loyal")]
           [rex; [("id", JStr "1"); ("name", JStr "Bo")]]
           [("id", JStr "1"); ("name", JStr "Bo")]).
  - left. exists "loyal". split; [reflexivity | discriminate].
  - right. left. reflexivity.
  - exact I.
Defined.

(** X7: a record whose [personalityTraits] is a string, not an array, is
    matched by substring: a query for the trait [t] keeps it exactly when
    [t] occurs somewhere in that string. *)
Theorem string_traits_match_by_substring (animal : object) (s t : string) :
  get_prop "personalityTraits" animal = JStr s ->
  t <> "" ->
  exists r,
    filterByQuery [("personalityTraits", JStr t)] [animal] = Ok r
    /\ (r = [animal] <-> occurs_in t s)
    /\ (r = [] <-> ~ occurs_in t s).
Proof.
  intros Hs Ht. apply truthy_string in Ht as Htr.
  rewrite traits_loop by (simpl get_prop; exact Htr).
  simpl. unfold has_trait. rewrite Hs. unfold String_indexOf. simpl toString.
  unfold occurs_in.
  destruct (index 0 t s) as [n|] eqn:E; simpl.
  - assert (Hz : (Z.of_nat n =? -1)%Z = false) by (apply Z.eqb_neq; lia).
    rewrite Hz. simpl. eexists. split; [reflexivity|].
    apply index_correct1 in E. split; split; try discriminate; eauto.
    intros H. exfalso. apply H. eauto.
  - eexists. split; [reflexivity|]. split; split; try discriminate; auto.
    + intros [n Hn]. exfalso.
      apply (index_correct3 0 n t s E); [assumption | lia | exact Hn].
    + intros _ [n Hn].
      apply (index_correct3 0 n t s E); [assumption | lia | exact Hn].
Qed.

Lemma string_traits_match_by_substring_witness :
  exists r,
    filterByQuery [("personalityTraits", JStr "loo")]
                  [[("name", JStr "Bo"); ("personalityTraits", JStr "aloof")]]
    = Ok r
    /\ (r = [[("name", JStr "Bo"); ("personalityTraits", JStr "aloof")]]
        <-> occurs_in "loo" "aloof")
    /\ (r = [] <-> ~ occurs_in "loo" "aloof").
Proof.
  apply (string_traits_match_by_substring
           [("name", JStr "Bo"); ("personalityTraits", JStr "aloof")]
           "aloof" "loo").
  - reflexivity.
  - discriminate.
Defined.

End FilterCompose.

(** ** The store only grows *)

Module Growth.
Import Js Server Spec Dec Total JsFacts FilterFacts Lookup Insert Store Sample.


(** One request: the world is untouched, or a validated candidate is
    appended and the file is written once (when the disk takes the write)
    or not at all (when it does not). *)
Lemma handle_step (r : request) (w : world) :
  snd (handle r w) = w
  \/ exists body,
       r = POST_animal body
       /\ animals (snd (handle r w)) = animals w ++ [candidate body w]
       /\ writable (fs (snd (handle r w))) = writable (fs w)
       /\ writes (fs (snd (handle r w)))
          = (if writable (fs w) then S (writes (fs w)) else writes (fs w)).
Proof.
  destruct r as [query|id|body]; simpl.
  - left. unfold get_api_animals.
    now destruct (if truthy (JObj query) then _ else _).
  - left. unfold get_api_animals_id.
    destruct (findById (JStr id) (animals w)); [|reflexivity].
    now destruct (truthy (JObj o)).
  - destruct (validateAnimal body) eqn:Hv.
    + right. exists body. destruct (writable (fs w)) eqn:Hw.
      * destruct (post_accepted body w Hv Hw) as [data [Hd Hp]].
        rewrite Hp. simpl. auto.
      * rewrite (post_write_failed body w Hv Hw). simpl. auto.
    + left. now rewrite (post_rejected body w Hv).
Qed.

Lemma run_grows (rs : list request) (w : world) :
  exists more,
    animals (run rs w) = animals w ++ more
    /\ List.length more <= inserts rs
    /\ writable (fs (run rs w)) = writable (fs w)
    /\ writes (fs (run rs w))
       = (if writable (fs w) then writes (fs w) + List.length more
          else writes (fs w)).
Proof.
  revert w. induction rs as [|r rest IH]; intros w; simpl.
  - exists []. rewrite app_nil_r. simpl.
    destruct (writable (fs w)); repeat split; lia.
  - destruct (IH (snd (handle r w))) as [more [Ha [Hl [Hw Hn]]]].
    destruct (handle_step r w) as [E|[body [-> [Hs [Hw' Hn']]]]].
    + rewrite E in *. exists more. repeat split; auto.
      destruct r; lia.
    + simpl in *. exists (candidate body w :: more).
      rewrite Ha, Hs, <- app_assoc. simpl. repeat split; auto.
      * lia.
      * congruence.
      * rewrite Hn, Hw', Hn'. destruct (writable (fs w)); lia.
Qed.


Lemma findById_app (id : value) (l more : list object) (animal : object) :
  findById id l = Some animal -> findById id (l ++ more) = Some animal.
Proof.
  induction l as [|a rest IH]; [discriminate|].
  simpl app. rewrite !findById_cons.
  destruct (strict_eq (get_prop "id" a) id); auto.
Qed.

(** X9: a lookup that succeeds keeps succeeding with the same record,
    whatever requests follow: no later insert, accepted, rejected or
    failed, changes what an existing id resolves to. *)
Theorem lookup_is_stable (id : string) (animal : object) (rs : list request)
    (w : world) :
  findById (JStr id) (animals w) = Some animal ->
  findById (JStr id) (animals (run rs w)) = Some animal
  /\ fst (get_api_animals_id id (run rs w)) = res_json (JObj animal).
Proof.
  intros H. destruct (run_grows rs w) as [more [Ha _]].
  assert (Hf : findById (JStr id) (animals (run rs w)) = Some animal).
  { rewrite Ha. now apply findById_app. }
  split; [exact Hf|]. unfold get_api_animals_id. now rewrite Hf.
Qed.

Lemma lookup_is_stable_witness :
  findById (JStr "0")
           (animals (run [POST_animal milo; POST_animal lion;
                          GET_animals []; POST_animal rex] w0))
  = Some rex.
Proof.
  apply (lookup_is_stable "0" rex
           [POST_animal milo; POST_animal lion; GET_animals []; POST_animal rex]
           w0).
  reflexivity.
Defined.

Lemma findById_indexed (store : list object) (i : nat) :
  indexed_ids store ->
  findById (JStr (nat_toString i)) store = nth_error store i.
Proof.
  intros H. destruct (nth_error store i) as [a|] eqn:E.
  - apply findById_some.
    destruct (nth_error_split store i E) as [l1 [l2 [Hs Hl]]].
    exists l1, l2. repeat split; auto.
    intros b Hb Hid. apply In_nth_error in Hb. destruct Hb as [j Hj].
    assert (Hlt : j < List.length l1) by (apply nth_error_Some; congruence).
    assert (Hsj : nth_error store j = Some b).
    { rewrite Hs, nth_error_app1; assumption. }
    rewrite (H j b Hsj) in Hid. injection Hid as Hid.
    apply nat_toString_inj in Hid. lia.
  - apply findById_none. intros a Ha Hid.
    apply In_nth_error in Ha. destruct Ha as [j Hj].
    assert (Hlt : j < List.length store) by (apply nth_error_Some; congruence).
    apply nth_error_None in E.
    rewrite (H j a Hj) in Hid. injection Hid as Hid.
    apply nat_toString_inj in Hid. lia.
Qed.

(** X10: in a store whose records carry their index as id, looking up the
    decimal string of [i] returns the record at index [i], and nothing
    when [i] is past the end. *)
Theorem findById_is_index_lookup (store : list object) (i : nat) :
  indexed_ids store ->
  findById (JStr (nat_toString i)) store = nth_error store i
  /\ (List.length store <= i ->
      forall disk, get_api_animals_id (nat_toString i) (mkWorld store disk)
                   = (res_send 404, mkWorld store disk)).
Proof.
  intros H. split; [now apply findById_indexed|].
  intros Hi disk. unfold get_api_animals_id. simpl.
  rewrite findById_indexed by assumption.
  apply nth_error_None in Hi. now rewrite Hi.
Qed.

Lemma findById_is_index_lookup_witness :
  findById (JStr (nat_toString 1)) [rex; milo1] = nth_error [rex; milo1] 1.
Proof.
  apply (findById_is_index_lookup [rex; milo1] 1).
  intros [|[|[|i]]] a Ha; simpl in Ha; try discriminate;
    now injection Ha as <-.
Defined.

(** X11: ids stay sound along every run: starting from a store whose
    records carry their index as id (the empty store is one), after any
    sequence of requests every record still carries its index as id and
    no two records share an id. *)
Theorem ids_stay_unique (rs : list request) (w : world) :
  indexed_ids (animals w) ->
  indexed_ids (animals (run rs w)) /\ unique_ids (animals (run rs w)).
Proof.
  intros H. split.
  - now apply indexed_ids_run.
  - now apply indexed_unique, indexed_ids_run.
Qed.

Lemma ids_stay_unique_witness :
  unique_ids (animals (run [POST_animal milo; POST_animal lion;
                            POST_animal milo]
                           (mkWorld [] disk0))).
Proof.
  apply (ids_stay_unique [POST_animal milo; POST_animal lion; POST_animal milo]
           (mkWorld [] disk0)).
  intros [|i] a Ha; discriminate.
Defined.

End Growth.

(** ** What an insert stores, and what a failed write leaves behind *)

Module Persist.
Import Js Server Spec Dec Total JsFacts FilterFacts Lookup Insert Store
       Growth Sample.





(** X14: the file follows the store along every run on a disk that takes
    writes: if file and store were in sync before, or if the run has made
    the store grow at all, they are in sync after it; so one accepted
    insert repairs a file that was stale. *)
Theorem file_follows_store (rs : list request) (w : world) :
  writable (fs w) = true ->
  in_sync w \/ animals (run rs w) <> animals w ->
  in_sync (run rs w).
Proof.
  revert w. induction rs as [|r rest IH]; intros w Hw H; simpl in *.
  - destruct H as [H|H]; [exact H | now contradiction H].
  - destruct (handle_cases r w) as [E|[body [_ [_ [_ [Hw' Hs]]]]]].
    + rewrite E in *. now apply IH.
    + apply IH; [congruence | left; auto].
Qed.

Lemma file_follows_store_witness :
  in_sync (run [POST_animal lion; POST_animal milo; GET_animal "0"] w0).
Proof.
  apply (file_follows_store [POST_animal lion; POST_animal milo;
                             GET_animal "0"] w0).
  - reflexivity.
  - right. discriminate.
Defined.

(** X15: validated inserts cannot break the data model: from a store
    whose records all have a traits array, after any run of requests every
    record still has one, and the list route answers every query whose
    traits value is falsy, a string or an array with a list, never with an
    exception. *)
Theorem data_model_is_kept (rs : list request) (w : world) (query : object) :
  store_wf (animals w) ->
  store_wf (animals (run rs w))
  /\ (iterable (get_prop "personalityTraits" query) ->
      exists r, fst (get_api_animals query (run rs w))
                = res_json (JArr (map JObj r))).
Proof.
  intros H. pose proof (store_wf_run rs w H) as Hwf. split; [exact Hwf|].
  intros Hit. destruct (effective_traits (get_prop "personalityTraits" query))
    as [ts|] eqn:Hts; [|now contradiction Hit].
  eexists. unfold get_api_animals. simpl.
  rewrite (filterByQuery_wf _ _ ts Hwf Hts). reflexivity.
Qed.

Lemma data_model_is_kept_witness :
  exists r,
    fst (get_api_animals [("personalityTraits", JStr "aloof")]
                         (run [POST_animal milo; POST_animal lion] w0))
    = res_json (JArr (map JObj r)).
Proof.
  apply (data_model_is_kept [POST_animal milo; POST_animal lion] w0
           [("personalityTraits", JStr "aloof")]).
  - intros a [<-|[]]. eexists. reflexivity.
  - discriminate.
Defined.

End Persist.

(** ** The page routes *)

Module Pages.
Import Path Html.

Local Open Scope string_scope.

Lemma plain_spec (seg : string) :
  plain seg = true ->
  no_slash seg = true /\ String.eqb seg "" = false
  /\ String.eqb seg "." = false /\ String.eqb seg ".." = false.
Proof.
  unfold plain. rewrite !andb_true_iff, !negb_true_iff. tauto.
Qed.

Lemma append_assoc (a b c : string) : (a ++ b) ++ c = a ++ (b ++ c).
Proof.
  induction a as [|x a' IH]; simpl; [reflexivity | now rewrite IH].
Qed.

Lemma append_nil_r (a : string) : a ++ "" = a.
Proof.
  induction a as [|x a' IH]; simpl; [reflexivity | now rewrite IH].
Qed.

Lemma split_slash (rest : string) :
  split (String slash rest) = "" :: split rest.
Proof. reflexivity. Qed.

Lemma split_segment (seg rest : string) (segs : list string) :
  no_slash seg = true -> split rest = "" :: segs ->
  split (seg ++ rest) = seg :: segs.
Proof.
  intros Hseg Hrest. induction seg as [|c s IH]; simpl in *; [exact Hrest|].
  apply andb_true_iff in Hseg. destruct Hseg as [Hc Hs].
  apply negb_true_iff in Hc. rewrite Hc, (IH Hs). reflexivity.
Qed.

Lemma split_dir (segs : list string) (rest : string) :
  Forall (fun seg => plain seg = true) segs ->
  split (dir segs ++ String slash rest) = ("" :: segs ++ split rest)%list.
Proof.
  induction 1 as [|seg tl Hseg Htl IH]; [reflexivity|].
  simpl dir. change ("/" ++ seg ++ dir tl) with (String slash (seg ++ dir tl)).
  simpl append. rewrite split_slash. f_equal.
  rewrite append_assoc.
  apply split_segment; [apply plain_spec, Hseg | exact IH].
Qed.

Lemma step_plain (b : bool) (res : list string) (seg : string) :
  plain seg = true -> step b res seg = seg :: res.
Proof.
  intros H. apply plain_spec in H. destruct H as [_ [H1 [H2 H3]]].
  unfold step. now rewrite H1, H2, H3.
Qed.

Lemma fold_plain (b : bool) (segs res : list string) :
  Forall (fun seg => plain seg = true) segs ->
  fold_left (step b) segs res = (rev segs ++ res)%list.
Proof.
  intros H. revert res. induction H as [|seg tl Hseg Htl IH]; intros res;
    [reflexivity|].
  simpl. rewrite step_plain by assumption. rewrite IH, <- app_assoc.
  reflexivity.
Qed.

Lemma ends_with_slash_app (a b : string) :
  b <> "" -> ends_with_slash (a ++ b) = ends_with_slash b.
Proof.
  intros Hb. induction a as [|c a' IH]; [reflexivity|].
  simpl append. simpl. rewrite IH.
  destruct (a' ++ b) eqn:E; [|reflexivity].
  destruct a'; simpl in E; [now contradiction Hb | discriminate].
Qed.

Lemma join_dir (out : list string) :
  out <> [] -> "/" ++ Js.join "/" out = dir out.
Proof.
  induction out as [|x rest IH]; intros H; [now contradiction H|].
  destruct rest as [|y rest'].
  - simpl. now rewrite append_nil_r.
  - change (Js.join "/" (x :: y :: rest'))
      with (x ++ "/" ++ Js.join "/" (y :: rest')).
    change (dir (x :: y :: rest')) with ("/" ++ x ++ dir (y :: rest')).
    rewrite <- IH by discriminate. reflexivity.
Qed.

Lemma join_plain_nonempty (out : list string) :
  out <> [] -> Forall (fun seg => plain seg = true) out ->
  String.eqb (Js.join "/" out) "" = false.
Proof.
  intros Hne H. destruct H as [|x rest Hx Hrest]; [now contradiction Hne|].
  apply plain_spec in Hx. destruct Hx as [_ [Hx _]].
  destruct x as [|c x']; [discriminate|].
  destruct rest; reflexivity.
Qed.

(** [path.join] of an absolute directory and a relative path, from the
    way the relative path's segments act on the directory's. *)
Lemma join_dirname (segs out : list string) (rel : string) :
  Forall (fun seg => plain seg = true) segs ->
  rel <> "" -> ends_with_slash rel = false ->
  fold_left (step false) (split rel) (rev segs) = rev out ->
  out <> [] -> Forall (fun seg => plain seg = true) out ->
  Path.join (dirname segs) rel = dir out.
Proof.
  intros Hsegs Hrel Hend Hfold Hne Hout.
  assert (Hnorm : normalizeString (dirname segs ++ "/" ++ rel) false
                  = Js.join "/" out).
  { unfold normalizeString.
    assert (Hs : fold_left (step false) (split (dirname segs ++ "/" ++ rel)) []
                 = rev out).
    { destruct segs as [|seg tl].
      - simpl in *. exact Hfold.
      - unfold dirname.
        change (dir (seg :: tl) ++ "/" ++ rel)
          with (dir (seg :: tl) ++ String slash rel).
        rewrite split_dir by assumption.
        rewrite app_comm_cons, fold_left_app.
        change (fold_left (step false) ("" :: seg :: tl) [])
          with (fold_left (step false) (seg :: tl) []).
        rewrite (fold_plain false (seg :: tl) []) by assumption.
        now rewrite app_nil_r. }
    now rewrite Hs, rev_involutive. }
  assert (Hhead : exists rest, dirname segs = String slash rest).
  { destruct segs; simpl; eauto. }
  destruct Hhead as [rest Hd].
  assert (Hj : String.eqb (dirname segs ++ "/" ++ rel) "" = false
               /\ starts_with_slash (dirname segs ++ "/" ++ rel) = true
               /\ String.eqb (dirname segs) "" = false).
  { rewrite Hd. repeat split. }
  destruct Hj as [Hj1 [Hj2 Hj3]].
  assert (Hends : ends_with_slash (dirname segs ++ "/" ++ rel) = false).
  { rewrite ends_with_slash_app by (destruct rel; discriminate).
    rewrite (ends_with_slash_app "/" rel) by assumption. exact Hend. }
  apply String.eqb_neq in Hrel.
  unfold Path.join. rewrite Hj3, Hrel.
  unfold normalize. rewrite Hj1, Hj2, Hends. simpl negb. cbv zeta.
  rewrite Hnorm.
  rewrite join_plain_nonempty by assumption.
  now apply join_dir.
Qed.

End Pages.

Module PageFiles.
Import Path Html Pages.

Local Open Scope string_scope.

Lemma dir_app (a b : list string) : dir (a ++ b)%list = dir a ++ dir b.
Proof.
  induction a as [|x a' IH]; [reflexivity|].
  simpl. now rewrite IH, !append_assoc.
Qed.

Lemma public_file (segs : list string) (rel file : string) :
  Forall (fun seg => plain seg = true) segs ->
  rel <> "" -> ends_with_slash rel = false ->
  plain file = true ->
  fold_left (step false) (split rel) (rev segs)
  = (file :: "public" :: rev segs)%list ->
  Path.join (dirname segs) rel = dir segs ++ "/public/" ++ file.
Proof.
  intros Hsegs Hrel Hend Hfile Hfold.
  rewrite (join_dirname segs (segs ++ ["public"; file])%list rel);
    auto.
  - rewrite dir_app. simpl. now rewrite append_nil_r.
  - rewrite Hfold, rev_app_distr. reflexivity.
  - destruct segs; discriminate.
  - apply Forall_app. split; [assumption|].
    repeat constructor. exact Hfile.
Qed.

(** X16: the page routes hand [res.sendFile] a file of the [public]
    directory next to [server.js]: for that directory [d], each of ['/'],
    ['/animals'] and ['/zookeepers'] resolves to [d/public/<page>.html];
    the router of [routes/htmlRoutes], two directories below, resolves to
    the very same files; and the catch-all route serves the index page. *)
Theorem page_routes_agree (segs : list string) (p : page) :
  Forall (fun seg => plain seg = true) segs ->
  server_sendFile (dirname segs) p = dir segs ++ "/public/" ++ file_name p
  /\ router_sendFile (dirname (segs ++ ["routes"; "htmlRoutes"])%list) p
     = server_sendFile (dirname segs) p
  /\ wildcard_sendFile (dirname segs) = server_sendFile (dirname segs) Index.
Proof.
  intros Hsegs.
  assert (Hserver : server_sendFile (dirname segs) p
                    = dir segs ++ "/public/" ++ file_name p).
  { destruct p; simpl; apply public_file; auto; discriminate. }
  assert (Hsub : Forall (fun seg => plain seg = true)
                        (segs ++ ["routes"; "htmlRoutes"])%list).
  { apply Forall_app. split; [assumption | repeat constructor]. }
  split; [exact Hserver | split; [|reflexivity]].
  rewrite Hserver.
  destruct p; simpl;
    (erewrite join_dirname with (out := (segs ++ ["public"; _])%list);
     [ rewrite dir_app; simpl; now rewrite append_nil_r
     | exact Hsub | discriminate | reflexivity
     | rewrite !rev_app_distr; reflexivity
     | destruct segs; discriminate
     | apply Forall_app; split; [assumption | repeat constructor] ]).
Qed.

Lemma page_routes_agree_witness :
  router_sendFile "/home/zoo/routes/htmlRoutes" Animals
  = server_sendFile "/home/zoo" Animals.
Proof.
  apply (proj1 (proj2 (page_routes_agree ["home"; "zoo"] Animals
                         ltac:(repeat constructor)))).
Defined.

End PageFiles.

Module FilterSamples.
Import Js Server Spec FilterTotal Sample.

Lemma filterByQuery_subsequence_witness :
  Subseq [milo1] [rex; milo1] /\ List.length [milo1] <= List.length [rex; milo1]
  /\ (forall animal, In animal [milo1] -> In animal [rex; milo1]).
Proof.
  apply (filterByQuery_subsequence [("diet", JStr "carnivore")]
                                   [rex; milo1] [milo1]).
  reflexivity.
Defined.

Lemma filterByQuery_idempotent_witness :
  filterByQuery [("personalityTraits", JStr "aloof"); ("species", JStr "Cat")]
                [milo1] = Ok [milo1].
Proof.
  apply (filterByQuery_idempotent
           [("personalityTraits", JStr "aloof"); ("species", JStr "Cat")]
           [rex; milo1] [milo1]).
  reflexivity.
Defined.

End FilterSamples.
